(** * kimi-secrets-vault: the token guard, the key files and the YubiKey layer

    A shallow embedding of

    - [src/kimi_vault/client.py]  ([GmailClient]: secrets-file resolution,
      proactive refresh, forced refresh, the retry wrapper),
    - [src/kimi_vault/crypto.py]  ([VaultCrypto.generate_key]),
    - [src/nakimi/core/yubikey.py] ([is_wsl2] and [YubiKeyManager]),

    followed by the properties of the specification stated on it.

    Python code runs here in a state-and-exception monad: a method is a
    function from the state before the call to an outcome (a value or a
    raised exception) and the state after it; state changes made before an
    exception is raised are kept, as in Python.  Everything outside the
    interpreter (the token endpoint, the clock, external executables, the
    process environment) is a field of a [World] record that the methods
    read; the proofs quantify over it. *)

From Stdlib Require Import ZArith String Ascii List Bool Lia DecimalString.
From Stdlib Require DecimalPos DecimalZ.
From stdpp Require Import base gmap strings list.
Import ListNotations.
Open Scope string_scope.

(** ** Python strings, exceptions and the execution monad *)

Module Py.

Definition nl : string := String (ascii_of_nat 10) EmptyString.

(** [str.lower] on the ASCII letters. *)
Definition lower_ascii (c : ascii) : ascii :=
  let n := nat_of_ascii c in
  if ((65 <=? n) && (n <=? 90))%nat then ascii_of_nat (n + 32) else c.

Fixpoint lower (s : string) : string :=
  match s with
  | EmptyString => EmptyString
  | String c s' => String (lower_ascii c) (lower s')
  end.

(** [needle in s]. *)
Fixpoint contains (needle s : string) : bool :=
  String.prefix needle s ||
  match s with
  | EmptyString => false
  | String _ s' => contains needle s'
  end.

(** [s.startswith(p)]. *)
Definition startswith (s p : string) : bool := String.prefix p s.

(** [s.split(sep)] for a one-character separator. *)
Fixpoint split (sep : ascii) (s : string) : list string :=
  match s with
  | EmptyString => [EmptyString]
  | String c s' =>
      if Ascii.eqb c sep then EmptyString :: split sep s'
      else match split sep s' with
           | [] => [String c EmptyString]
           | w :: ws => String c w :: ws
           end
  end.

(** [str.isspace] on one ASCII character. *)
Definition isspace (c : ascii) : bool :=
  let n := nat_of_ascii c in
  (((9 <=? n) && (n <=? 13)) || ((28 <=? n) && (n <=? 32)))%nat.

Fixpoint lstrip (s : string) : string :=
  match s with
  | EmptyString => EmptyString
  | String c s' => if isspace c then lstrip s' else s
  end.

Fixpoint rstrip (s : string) : string :=
  match s with
  | EmptyString => EmptyString
  | String c s' =>
      let r := rstrip s' in
      if isspace c && String.eqb r EmptyString then EmptyString else String c r
  end.

(** [s.strip()]. *)
Definition strip (s : string) : string := rstrip (lstrip s).

(** Truth value of an [Optional[str]]: [None] and the empty string are false. *)
Definition truthy (o : option string) : bool :=
  match o with
  | Some s => negb (String.eqb s EmptyString)
  | None => false
  end.

(** [a or b] on [Optional[str]]. *)
Definition or_else (a b : option string) : option string :=
  if truthy a then a else b.

(** [str(n)] for an [int]. *)
Definition str_of_int (n : Z) : string := NilZero.string_of_int (Z.to_int n).

(** Whether a byte string is well-formed UTF-8; [bytes.decode] raises
    [UnicodeDecodeError] on any other input. *)
Definition cont (c : ascii) : bool :=
  let n := nat_of_ascii c in ((128 <=? n) && (n <=? 191))%nat.

Definition in_range (lo hi : nat) (c : ascii) : bool :=
  let n := nat_of_ascii c in ((lo <=? n) && (n <=? hi))%nat.

Fixpoint utf8_ok_fuel (fuel : nat) (s : string) : bool :=
  match fuel with
  | O => match s with EmptyString => true | _ => false end
  | S fuel' =>
      match s with
      | EmptyString => true
      | String a r =>
          if in_range 0 127 a then utf8_ok_fuel fuel' r
          else match r with
          | EmptyString => false
          | String b r2 =>
              if in_range 194 223 a then cont b && utf8_ok_fuel fuel' r2
              else match r2 with
              | EmptyString => false
              | String c r3 =>
                  if in_range 224 239 a then
                    (if in_range 224 224 a then in_range 160 191 b
                     else if in_range 237 237 a then in_range 128 159 b
                     else cont b)
                    && cont c && utf8_ok_fuel fuel' r3
                  else match r3 with
                  | EmptyString => false
                  | String d r4 =>
                      in_range 240 244 a
                      && (if in_range 240 240 a then in_range 144 191 b
                          else if in_range 244 244 a then in_range 128 143 b
                          else cont b)
                      && cont c && cont d && utf8_ok_fuel fuel' r4
                  end
              end
          end
      end
  end.

Definition utf8_ok (s : string) : bool := utf8_ok_fuel (String.length s) s.

(** The exception classes the three modules raise or catch.  [Exception]
    stands for any other subclass of Python's [Exception]; its second field
    is [e.resp.status] when the object has a [resp] attribute.  [BatchError]
    is the subclass of [HttpError] whose [resp] is [None] (the default of
    [googleapiclient.errors.BatchError]); its field is [str(e)]. *)
Inductive exn : Type :=
| GmailAuthError (msg : string)
| HttpError (status : Z) (msg : string)
| BatchError (text : string)
| AttributeError (msg : string)
| VaultCryptoError (msg : string)
| YubiKeyError (msg : string)
| FileNotFoundError (msg : string)
| PermissionError (msg : string)
| OSError (msg : string)
| CalledProcessError (returncode : Z) (stdout stderr : string)
| UnicodeDecodeError (msg : string)
| Exception (msg : string) (resp : option Z).

(** [str(e)]. *)
Definition str (e : exn) : string :=
  match e with
  | GmailAuthError m | HttpError _ m | BatchError m | AttributeError m
  | VaultCryptoError m
  | YubiKeyError m | FileNotFoundError m | PermissionError m | OSError m
  | UnicodeDecodeError m | Exception m _ => m
  | CalledProcessError rc _ _ =>
      "Command returned non-zero exit status " ++ str_of_int rc ++ "."
  end.

(** [e.resp.status] when [hasattr(e, 'resp')]. *)
Definition resp_status (e : exn) : option Z :=
  match e with
  | HttpError st _ => Some st
  | Exception _ r => r
  | _ => None
  end.

(** The object has a [resp] attribute and it is [None]: evaluating
    [e.resp.status] raises [AttributeError]. *)
Definition resp_is_None (e : exn) : bool :=
  match e with BatchError _ => true | _ => false end.

Definition none_status_msg : string :=
  "'NoneType' object has no attribute 'status'".

(** [isinstance(e, OSError)]: the two subclasses used in the sources. *)
Definition is_OSError (e : exn) : bool :=
  match e with
  | FileNotFoundError _ | PermissionError _ | OSError _ => true
  | _ => false
  end.

Definition is_GmailAuthError (e : exn) : bool :=
  match e with GmailAuthError _ => true | _ => false end.

(** Outcome of a call: a returned value or a raised exception. *)
Inductive result (A : Type) : Type :=
| Ok (a : A)
| Raise (e : exn).
Arguments Ok {A} a.
Arguments Raise {A} e.

Definition is_Ok {A} (r : result A) : bool :=
  match r with Ok _ => true | Raise _ => false end.

(** A computation over a state [S]. *)
Definition M (S A : Type) : Type := S -> result A * S.

Definition ret {S A} (a : A) : M S A := fun s => (Ok a, s).

Definition raise {S A} (e : exn) : M S A := fun s => (Raise e, s).

Definition bind {S A B} (m : M S A) (k : A -> M S B) : M S B :=
  fun s =>
    match m s with
    | (Ok a, s') => k a s'
    | (Raise e, s') => (Raise e, s')
    end.

Definition get {S} : M S S := fun s => (Ok s, s).

Definition modify {S} (f : S -> S) : M S unit := fun s => (Ok tt, f s).

(** [try: m  except Exception as e: h e]. *)
Definition try_except {S A} (m : M S A) (h : exn -> M S A) : M S A :=
  fun s =>
    match m s with
    | (Ok a, s') => (Ok a, s')
    | (Raise e, s') => h e s'
    end.

(** [try: m  finally: f]; an exception raised by [f] replaces the outcome
    of [m]. *)
Definition try_finally {S A} (m : M S A) (f : M S unit) : M S A :=
  fun s =>
    match m s with
    | (r, s') =>
        match f s' with
        | (Ok _, s'') => (r, s'')
        | (Raise e, s'') => (Raise e, s'')
        end
    end.

End Py.

Export Py.

(** The notations of stdpp's monads, read in [M S]: [x ← m; k] runs [m],
    binds its value to [x] and continues with [k]; [m;; k] drops the value. *)
Declare Scope py_scope.
Delimit Scope py_scope with py.
Notation "x ← y ; z" := (bind y (fun x => z))
  (at level 20, y at level 100, z at level 200, only parsing) : py_scope.
Notation "x ;; z" := (bind x (fun _ => z))
  (at level 100, z at level 200, only parsing, right associativity) : py_scope.
Open Scope py_scope.

(** ** Files *)

(** A file: its contents and its permission bits. *)
Record File : Type := mkFile { content : string; mode : Z }.

(** The file system: the paths that exist, with their files. *)
Abbreviation FS := (gmap string File).

(** [Path(p).exists()]. *)
Definition exists_ (fs : FS) (p : string) : bool := bool_decide (is_Some (fs !! p)).

(** ** [kimi_vault/client.py]: the token guard *)

Module Client.

#[local] Open Scope Z_scope.

(** [google.oauth2.credentials.Credentials], as far as the guard reads it.
    Instants are naive UTC [datetime]s, counted in microseconds (the
    resolution of [datetime]).  [valid] is the library's property as the
    guard observes it. *)
Record Credentials : Type := mkCredentials {
  token : option string;
  refresh_token : string;
  token_uri : string;
  client_id : string;
  client_secret : string;
  expiry : option Z;
  valid : bool
}.

(** What [creds.refresh(Request())] does: it returns after replacing the
    access token and the expiry, or it raises. *)
Inductive refresh_response : Type :=
| Granted (tok : string) (exp : option Z) (v : bool)
| Refused (e : exn).

(** The surroundings of one client.  [token_endpoint n] answers the [n]-th
    refresh request of the process, [utcnow] is [datetime.utcnow()].

    [sys_environ] is the attribute [environ] of the module [sys], which is
    where line 83 looks the override variables up.  CPython's [sys] has no
    such attribute (the process environment is [os.environ], and [os] is not
    imported by the module), so on a stock interpreter this field is [None]
    and the attribute access raises [AttributeError]. *)
Record World : Type := mkWorld {
  utcnow : Z;
  token_endpoint : nat -> refresh_response;
  sys_environ : option (gmap string string);
  files : FS
}.

(** The fields of a [GmailClient] that the guard uses, the text written to
    [sys.stderr], and two counters kept for the specification: the number of
    refresh requests sent and the number of invocations of wrapped
    operations. *)
Record GmailClient : Type := mkGmailClient {
  creds : option Credentials;
  _auth_error : option string;
  stderr : list string;
  refresh_calls : nat;
  api_calls : nat
}.

Definition set_creds (c : option Credentials) (s : GmailClient) : GmailClient :=
  mkGmailClient c (_auth_error s) (stderr s) (refresh_calls s) (api_calls s).

Definition set_auth_error (a : option string) (s : GmailClient) : GmailClient :=
  mkGmailClient (creds s) a (stderr s) (refresh_calls s) (api_calls s).

Definition print_stderr (line : string) (s : GmailClient) : GmailClient :=
  mkGmailClient (creds s) (_auth_error s) (stderr s ++ [line])%list
                (refresh_calls s) (api_calls s).

Definition count_refresh (s : GmailClient) : GmailClient :=
  mkGmailClient (creds s) (_auth_error s) (stderr s) (S (refresh_calls s))
                (api_calls s).

Definition count_api_call (s : GmailClient) : GmailClient :=
  mkGmailClient (creds s) (_auth_error s) (stderr s) (refresh_calls s)
                (S (api_calls s)).

(** The safety margin of [_ensure_valid_token]: 300 seconds. *)
Definition margin_seconds : Z := 300.

Definition microseconds (seconds : Z) : Z := seconds * 1000000.

(** [self.creds.refresh(Request())]. *)
Definition creds_refresh (w : World) (c : Credentials) : M GmailClient unit :=
  s ← get;
  modify count_refresh;;
  match token_endpoint w (refresh_calls s) with
  | Granted tok exp v =>
      modify (set_creds (Some (mkCredentials (Some tok) (refresh_token c)
                (token_uri c) (client_id c) (client_secret c) exp v)))
  | Refused e => raise e
  end.

Definition revoked_msg : string :=
  "Refresh token expired or revoked. Need to re-authorize with Gmail.".

(** [GmailClient._refresh_token] (lines 140-155). *)
Definition _refresh_token (w : World) : M GmailClient unit :=
  s ← get;
  match creds s with
  | None => raise (GmailAuthError "No credentials available to refresh")
  | Some c =>
      try_except
        (creds_refresh w c;;
         modify (set_auth_error None))
        (fun e =>
           let error_str := str e in
           if contains "invalid_grant" error_str
           then raise (GmailAuthError revoked_msg)
           else raise e)
  end.

(** The test of line 132, [not self.creds.valid or expires_in < 300].
    [expires_in] is [total_seconds()] of a difference of two instants: the
    number of microseconds between them divided by 10^6, so that
    [expires_in < 300] compares that number with 300 * 10^6.  An absent
    expiry counts as 0 seconds. *)
Definition expires_in (w : World) (c : Credentials) : Z :=
  match expiry c with
  | Some t => t - utcnow w
  | None => 0
  end.

Definition refresh_due (w : World) (c : Credentials) : bool :=
  negb (valid c) || (expires_in w c <? microseconds margin_seconds).

(** [GmailClient._ensure_valid_token] (lines 119-138). *)
Definition _ensure_valid_token (w : World) : M GmailClient unit :=
  s ← get;
  match creds s with
  | None =>
      if truthy (_auth_error s)
      then raise (GmailAuthError (default EmptyString (_auth_error s)))
      else ret tt
  | Some c =>
      if refresh_due w c
      then
        try_except (_refresh_token w)
          (fun e =>
             let error_msg := "Token refresh failed: " ++ str e in
             modify (set_auth_error (Some error_msg));;
             raise (GmailAuthError error_msg))
      else ret tt
  end.

(** What [_ensure_valid_token] records when a due refresh is refused with
    [e]: the prefix of line 136 and [str] of what [_refresh_token] raised. *)
Definition recorded_reason (e : exn) : string :=
  "Token refresh failed: " ++
  (if contains "invalid_grant" (str e) then revoked_msg else str e).

(** [GmailClient._handle_api_error] (lines 201-219); it returns [None],
    unless the test of line 204 raises: [hasattr(e, 'resp')] holds also for
    a [resp] that is [None], and [e.resp.status] then raises
    [AttributeError]. *)
Definition _handle_api_error {A} (e : exn) : M GmailClient (option A) :=
  let report (error_details : string) : M GmailClient (option A) :=
    modify (print_stderr ("❌ Gmail API Error: " ++ error_details));;
    ret None in
  if resp_is_None e then raise (AttributeError none_status_msg) else
  match resp_status e with
  | Some status =>
      if status =? 0 then report (str e)
      else if status =? 401 then
        modify (set_auth_error
                  (Some "Authentication expired. Token refresh failed."));;
        report "Authentication expired. Token refresh failed."
      else if status =? 403 then
        report "Permission denied. Check Gmail API scopes."
      else if status =? 429 then
        report "Rate limit exceeded. Please wait and try again."
      else report ("HTTP " ++ str_of_int status ++ ": " ++ str e)
  | None => report (str e)
  end.

(** A wrapped operation: the outcome of each of its invocations, numbered
    over the life of the client. *)
Definition Operation (A : Type) : Type := nat -> result A.

(** One call of the wrapped operation with its arguments. *)
Definition invoke {A} (api_call : Operation A) : M GmailClient A :=
  fun s => (api_call (api_calls s), count_api_call s).

Definition is_HttpError (e : exn) : bool :=
  match e with HttpError _ _ | BatchError _ => true | _ => false end.

(** [GmailClient._execute_with_retry] (lines 184-199).  The handlers of the
    outer [try] guard its body only: what is raised inside the
    [except HttpError] handler leaves the method unless the inner
    [except GmailAuthError] catches it; so does the [AttributeError] of the
    test of line 190 on a [resp] that is [None]. *)
Definition _execute_with_retry {A} (w : World) (api_call : Operation A)
  : M GmailClient (option A) :=
  try_except
    (x ← invoke api_call; ret (Some x))
    (fun e =>
       if is_HttpError e then
         if resp_is_None e then raise (AttributeError none_status_msg)
         else if bool_decide (resp_status e = Some 401) then
           try_except
             (_refresh_token w;;
              x ← invoke api_call; ret (Some x))
             (fun e' =>
                if is_GmailAuthError e' then ret None else raise e')
         else _handle_api_error e
       else _handle_api_error e).

(** [GmailClient.get_profile] (lines 221-229), the shape shared by the
    public methods: freshness check, wrapped call, [GmailAuthError] turned
    into [None]. *)
Definition get_profile {A} (w : World) (execute : Operation A)
  : M GmailClient (option A) :=
  try_except
    (_ensure_valid_token w;;
     _execute_with_retry w execute)
    (fun e => if is_GmailAuthError e then ret None else raise e).



End Client.

(** ** The process: files, environment and external executables *)

Module Host.

#[local] Open Scope Z_scope.

(** What starting an executable gives: it is not on the search path, or it
    runs and exits with a status and its two captured streams. *)
Inductive spawn : Type :=
| NotFound
| Exited (returncode : Z) (stdout stderr : string).

(** [subprocess.CompletedProcess]. *)
Record CompletedProcess : Type := mkCompleted {
  returncode : Z;
  stdout : string;
  stderr : string
}.

(** The machine around the process.  [exec fs argv input] is what running
    [argv] with [input] on its standard input gives when the files are [fs];
    [environ] is [os.environ]; [mktemp fs] is the name the operating system
    picks for a new temporary file; [umask] is the file-creation mask;
    [keygen_file] is the identity file that a successful [age-keygen -o]
    leaves behind. *)
Record World : Type := mkWorld {
  exec : FS -> list string -> string -> spawn;
  environ : gmap string string;
  mktemp : FS -> string;
  umask : Z;
  keygen_file : File
}.

(** Why a process cannot be started although its executable was found:
    the user may not execute the file ([PermissionError]), or the system
    cannot run it ([OSError], an exec format error for one). *)
Inductive start_failure : Type :=
| NotPermitted
| NotRunnable.

(** What [subprocess.run] raises then. *)
Definition start_error (why : start_failure) (argv : list string) : exn :=
  match why with
  | NotPermitted =>
      PermissionError ("Permission denied: " ++ hd EmptyString argv)
  | NotRunnable => OSError ("Exec format error: " ++ hd EmptyString argv)
  end.

(** What can go wrong with a new temporary file: it cannot be created, or
    it is created and writing or closing it fails, which leaves the file
    with what was written of the text. *)
Inductive temp_fault : Type :=
| CreateFails (msg : string)
| WriteFails (written msg : string).

(** A machine: the answers of its world, and its faults.
    [refused fs argv] says whether and why the process [argv] cannot be
    started on [fs] although the executable is there; [tempfile_fault fs]
    is the fault, if any, that meets the next temporary file. *)
Record Machine : Type := mkMachine {
  world : World;
  refused : FS -> list string -> option start_failure;
  tempfile_fault : FS -> option temp_fault
}.

(** The machine without faults: every executable that is found can be
    started, and temporary files can be written.  A world is read as that
    machine wherever a machine is expected. *)
Definition reliable (w : World) : Machine :=
  mkMachine w (fun _ _ => None) (fun _ => None).

Coercion reliable : World >-> Machine.

(** What the process did to the outside, in order. *)
Inductive effect : Type :=
| Spawn (argv : list string)
| Open (path : string)
| Getenv (name : string).

(** The state of the process outside the Python objects: the files and the
    log of effects. *)
Record Proc : Type := mkProc {
  fs : FS;
  trace : list effect
}.

Definition log (e : effect) (p : Proc) : Proc :=
  mkProc (fs p) (trace p ++ [e])%list.

Definition set_fs (f : FS) (p : Proc) : Proc := mkProc f (trace p).

(** The executables started, in order. *)
Definition spawned (t : list effect) : list (list string) :=
  omap (fun e => match e with Spawn argv => Some argv | _ => None end) t.

(** [subprocess.run(argv, input=input, capture_output=True, check=check)]:
    [FileNotFoundError] when the executable is missing, [PermissionError]
    or another [OSError] when it is there and cannot be started, and with
    [check=True] a [CalledProcessError] on a non-zero exit status. *)
Definition subprocess_run (w : Machine) (check : bool) (argv : list string)
    (input : string) : M Proc CompletedProcess :=
  p ← get;
  modify (log (Spawn argv));;
  match refused w (fs p) argv with
  | Some why => raise (start_error why argv)
  | None =>
      match exec (world w) (fs p) argv input with
      | NotFound =>
          raise (FileNotFoundError
                   ("No such file or directory: " ++ hd EmptyString argv))
      | Exited rc out err =>
          if check && negb (rc =? 0) then raise (CalledProcessError rc out err)
          else ret (mkCompleted rc out err)
      end
  end.

(** The owner may read the file. *)
Definition readable (f : File) : bool := Z.testbit (mode f) 8.

(** [with open(path, "r") as f: f.read()]. *)
Definition read_text (path : string) : M Proc string :=
  p ← get;
  modify (log (Open path));;
  match fs p !! path with
  | None => raise (FileNotFoundError ("No such file or directory: " ++ path))
  | Some f =>
      if readable f then ret (content f)
      else raise (PermissionError ("Permission denied: " ++ path))
  end.

(** The owner may write the file. *)
Definition writable (f : File) : bool := Z.testbit (mode f) 7.

(** [with open(path, "w") as f: f.write(text)]: the file is created with
    the default permissions, or truncated and its permissions kept;
    opening a file that its owner may not write raises [PermissionError]
    and leaves it as it is. *)
Definition write_text (w : Machine) (path text : string) : M Proc unit :=
  p ← get;
  match fs p !! path with
  | Some f =>
      if writable f
      then modify (set_fs (<[path := mkFile text (mode f)]> (fs p)))
      else raise (PermissionError ("Permission denied: " ++ path))
  | None =>
      modify (set_fs (<[path := mkFile text (Z.ldiff 438 (umask (world w)))]>
                        (fs p)))
  end.

(** [os.chmod(path, m)]. *)
Definition os_chmod (path : string) (m : Z) : M Proc unit :=
  p ← get;
  match fs p !! path with
  | None => raise (FileNotFoundError ("No such file or directory: " ++ path))
  | Some f => modify (set_fs (<[path := mkFile (content f) m]> (fs p)))
  end.

(** [os.unlink(path)]. *)
Definition os_unlink (path : string) : M Proc unit :=
  p ← get;
  match fs p !! path with
  | None => raise (FileNotFoundError ("No such file or directory: " ++ path))
  | Some _ => modify (set_fs (delete path (fs p)))
  end.

(** [os.environ.get(name)]. *)
Definition getenv (w : Machine) (name : string) : M Proc (option string) :=
  modify (log (Getenv name));;
  ret (environ (world w) !! name).

(** [b.decode("utf-8")]. *)
Definition decode {S} (b : string) : M S string :=
  if utf8_ok b then ret b
  else raise (UnicodeDecodeError "'utf-8' codec can't decode bytes").

(** The handlers [except (subprocess.CalledProcessError, FileNotFoundError)]
    and [except (subprocess.SubprocessError, FileNotFoundError)] catch the
    same exceptions of this model. *)
Definition failed_to_run (e : exn) : bool :=
  match e with
  | CalledProcessError _ _ _ | FileNotFoundError _ => true
  | _ => false
  end.

(** The effects that a call added to the log. *)
Definition since (before after : Proc) : list effect :=
  drop (length (trace before)) (trace after).

(** [after] is [before] with the same files and more effects, all of
    which satisfy [P]. *)
Definition grows (P : effect -> Prop) (before after : Proc) : Prop :=
  fs after = fs before
  /\ exists t, trace after = (trace before ++ t)%list /\ List.Forall P t.


End Host.

Export Host.

(** ** [kimi_vault/crypto.py]: key generation *)

Module Crypto.

#[local] Open Scope Z_scope.

(** [VaultCrypto.__init__]: the private-key path and the public-key path
    derived from it. *)
Record VaultCrypto : Type := mkVaultCrypto { key_file : string }.

Definition key_pub_file (self : VaultCrypto) : string := key_file self ++ ".pub".

Definition age_missing_msg : string :=
  "age is not installed. Install it from https://age-encryption.org".

(** [VaultCrypto._check_age_installed] (lines 28-35). *)
Definition _check_age_installed (w : Machine) : M Proc unit :=
  try_except
    (subprocess_run w true ["age"; "--version"] "";; ret tt)
    (fun e => if failed_to_run e then raise (VaultCryptoError age_missing_msg)
              else raise e).

(** [subprocess.run(["age-keygen", "-o", path], ..., check=True)]: when the
    tool exits with status 0 it has written the new identity to [path]. *)
Definition run_age_keygen (w : Machine) (path : string) : M Proc CompletedProcess :=
  result ← subprocess_run w true ["age-keygen"; "-o"; path] "";
  p ← get;
  modify (set_fs (<[path := keygen_file (world w)]> (fs p)));;
  ret result.

(** The public key announced on the tool's standard error: of the first
    line that starts with the marker, the text between the first and the
    second colon, stripped. *)
Definition public_key_of (stderr_text : string) : option string :=
  match List.find (fun line => startswith line "# public key:")
                  (split (ascii_of_nat 10) stderr_text) with
  | Some line => Some (strip (nth 1 (split ":"%char line) EmptyString))
  | None => None
  end.

Definition key_exists_msg (self : VaultCrypto) : string :=
  "Key file already exists: " ++ key_file self ++ nl ++
  "Delete it first if you want to generate a new key.".

(** [VaultCrypto.generate_key] (lines 37-72). *)
Definition generate_key (w : Machine) (self : VaultCrypto)
  : M Proc (option string) :=
  _check_age_installed w;;
  p ← get;
  if exists_ (fs p) (key_file self) then
    raise (VaultCryptoError (key_exists_msg self))
  else
    try_except
      (result ← run_age_keygen w (key_file self);
       let public_key := public_key_of (stderr result) in
       match public_key with
       | Some k =>
           if truthy public_key
           then write_text w (key_pub_file self) (k ++ nl)
           else ret tt
       | None => ret tt
       end;;
       os_chmod (key_file self) 384;;
       ret public_key)
      (fun e =>
         match e with
         | CalledProcessError _ _ err =>
             raise (VaultCryptoError ("Failed to generate key: " ++ err))
         | _ => raise e
         end).

End Crypto.

(** ** [nakimi/core/yubikey.py]: environment probe and YubiKey manager *)

Module Yubikey.

#[local] Open Scope Z_scope.

(** [is_wsl2] (lines 32-60). *)
Definition is_wsl2 (w : Machine) : M Proc bool :=
  in_version ←
    try_except
      (text ← read_text "/proc/version";
       ret (contains "microsoft" (lower text)))
      (fun e =>
         match e with
         | FileNotFoundError _ | PermissionError _ => ret false
         | _ => raise e
         end);
  if in_version then ret true
  else
    in_release ←
      try_except
        (result ← subprocess_run w false ["uname"; "-r"] "";
         ret (contains "microsoft" (lower (stdout result))))
        (fun e => if failed_to_run e then ret false else raise e);
    if in_release then ret true
    else
      distro ← getenv w "WSL_DISTRO_NAME";
      if truthy distro then ret true else ret false.

(** The two builds of the hardware-key plugin. *)
Definition plugin : string := "age-plugin-yubikey".
Definition plugin_exe : string := "age-plugin-yubikey.exe".

(** The part of [VaultConfig] the manager reads. *)
Record VaultConfig : Type := mkVaultConfig {
  yubikey_enabled : bool;
  yubikey_slot : string
}.

(** [YubiKeyManager]: its configuration and its two memo fields. *)
Record YubiKeyManager : Type := mkYubiKeyManager {
  config : VaultConfig;
  _ykman_available : option bool;
  _yubikey_present : option bool
}.

(** A manager inside its process. *)
Record State : Type := mkState {
  self : YubiKeyManager;
  proc : Proc
}.

Definition set_ykman_available (b : option bool) (s : State) : State :=
  mkState (mkYubiKeyManager (config (self s)) b (_yubikey_present (self s)))
          (proc s).

Definition set_yubikey_present (b : option bool) (s : State) : State :=
  mkState (mkYubiKeyManager (config (self s)) (_ykman_available (self s)) b)
          (proc s).

(** Run a computation of the process inside the manager's state. *)
Definition lift {A} (m : M Proc A) : M State A :=
  fun s => match m (proc s) with (r, p) => (r, mkState (self s) p) end.

(** [YubiKeyManager._check_ykman_installed] (lines 77-90). *)
Definition _check_ykman_installed (w : Machine) : M State bool :=
  s ← get;
  match _ykman_available (self s) with
  | Some b => ret b
  | None =>
      try_except
        (lift (subprocess_run w true ["ykman"; "--version"] "");;
         modify (set_ykman_available (Some true));;
         ret true)
        (fun e =>
           if failed_to_run e
           then modify (set_ykman_available (Some false));; ret false
           else raise e)
  end.

(** The loop of [YubiKeyManager._check_yubikey_present_wsl2]: the first
    command whose version query succeeds ends it with [True]. *)
Fixpoint version_probe (w : Machine) (commands : list string) : M Proc bool :=
  match commands with
  | [] => ret false
  | cmd :: rest =>
      try_except
        (subprocess_run w true [cmd; "--version"] "";; ret true)
        (fun e => if failed_to_run e then version_probe w rest else raise e)
  end.

(** [YubiKeyManager._check_yubikey_present_wsl2] (lines 129-155). *)
Definition _check_yubikey_present_wsl2 (w : Machine) : M State bool :=
  lift (version_probe w [plugin_exe; plugin]).

(** [YubiKeyManager._check_age_plugin_installed] (lines 157-170). *)
Definition _check_age_plugin_installed (w : Machine) : M State bool :=
  lift (version_probe w [plugin; plugin_exe]).

(** [YubiKeyManager._check_yubikey_present] (lines 92-127). *)
Definition _check_yubikey_present (w : Machine) : M State bool :=
  s ← get;
  match _yubikey_present (self s) with
  | Some b => ret b
  | None =>
      let absent : M State bool :=
        modify (set_yubikey_present (Some false));; ret false in
      let present : M State bool :=
        modify (set_yubikey_present (Some true));; ret true in
      installed ← _check_ykman_installed w;
      if installed then
        try_except
          (lift (subprocess_run w true ["ykman"; "info"] "");;
           present)
          (fun e =>
             match e with
             | CalledProcessError _ _ err =>
                 wsl ← lift (is_wsl2 w);
                 if wsl && (contains "PC/SC not available" err
                            || contains "Smart card (CCID) protocols" err)%bool
                 then
                   found ← _check_yubikey_present_wsl2 w;
                   if found then present else absent
                 else absent
             | _ => raise e
             end)
      else
        wsl ← lift (is_wsl2 w);
        installed_plugin ←
          (if wsl then _check_age_plugin_installed w else ret false);
        if wsl && installed_plugin then
          found ← _check_yubikey_present_wsl2 w;
          if found then present else absent
        else absent
  end.

(** [YubiKeyManager.is_available] (lines 253-264). *)
Definition is_available (w : Machine) : M State bool :=
  s ← get;
  if negb (yubikey_enabled (config (self s))) then ret false
  else _check_yubikey_present w.

(** The order in which the two builds are tried (lines 181-184, 224-227). *)
Definition commands_for (wsl : bool) : list string :=
  if wsl then [plugin_exe; plugin] else [plugin; plugin_exe].

Definition plugin_missing_msg : string :=
  "age-plugin-yubikey not found. " ++
  "Install it from https://github.com/str4d/age-plugin-yubikey".

(** [e.stderr] of the exception kept in [last_error]. *)
Definition stderr_of (e : exn) : string :=
  match e with
  | CalledProcessError _ _ err => err
  | _ => EmptyString
  end.

(** What follows the loop of a lookup (lines 206-212, 245-251). *)
Definition after_loop {A} (w : Machine) (what : string) (last_error : option exn)
  : M Proc A :=
  match last_error with
  | Some e =>
      wsl ← is_wsl2 w;
      if wsl
      then raise (YubiKeyError ("Failed to get " ++ what ++ ": " ++ stderr_of e))
      else raise (YubiKeyError plugin_missing_msg)
  | None => raise (YubiKeyError plugin_missing_msg)
  end.

(** The loop shared by the two lookups: [args] are the arguments after the
    executable, [parse cmd out] is what the body of the [try] does with the
    standard output of a successful run. *)
Fixpoint lookup_loop (w : Machine) (what : string) (args : list string)
    (parse : string -> string -> result string)
    (commands : list string) (last_error : option exn) : M Proc string :=
  match commands with
  | [] => after_loop w what last_error
  | cmd :: rest =>
      try_except
        (result ← subprocess_run w true (cmd :: args) "";
         match parse cmd (stdout result) with
         | Ok v => ret v
         | Raise e => raise e
         end)
        (fun e =>
           match e with
           | FileNotFoundError _ => lookup_loop w what args parse rest last_error
           | CalledProcessError _ _ err =>
               wsl ← is_wsl2 w;
               if wsl then lookup_loop w what args parse rest (Some e)
               else raise (YubiKeyError ("Failed to get " ++ what ++ " with "
                                         ++ cmd ++ ": " ++ err))
           | _ => raise e
           end)
  end.

(** The recipient line of the plugin's listing (lines 193-196). *)
Definition parse_recipient (cmd out : string) : result string :=
  match List.find (fun line => startswith line "age1yubikey1")
                  (split (ascii_of_nat 10) out) with
  | Some line => Ok (strip line)
  | None => Raise (YubiKeyError ("No recipient found in " ++ cmd ++ " output"))
  end.

(** [YubiKeyManager._get_yubikey_recipient] (lines 172-212). *)
Definition _get_yubikey_recipient (w : Machine) : M State string :=
  s ← get;
  let slot := yubikey_slot (config (self s)) in
  wsl ← lift (is_wsl2 w);
  lift (lookup_loop w "recipient" ["--list"; "--slot"; slot] parse_recipient
          (commands_for wsl) None).

(** [YubiKeyManager._get_yubikey_identity] (lines 214-251). *)
Definition _get_yubikey_identity (w : Machine) : M State string :=
  s ← get;
  let slot := yubikey_slot (config (self s)) in
  wsl ← lift (is_wsl2 w);
  lift (lookup_loop w "identity" ["--identity"; "--slot"; slot]
          (fun _ out => Ok (strip out))
          (commands_for wsl) None).

(** [with tempfile.NamedTemporaryFile(mode="w", suffix=".age",
    delete=False) as f: f.write(text)] (lines 492-494): a new file, readable
    and writable by its owner only, that holds [text]; the value is its
    name.  When the file cannot be created, nothing is left; when writing
    or closing it fails, the file stays ([delete=False]) and the [OSError]
    leaves the block. *)
Definition named_temporary_file (w : Machine) (text : string) : M Proc string :=
  p ← get;
  let name := mktemp (world w) (fs p) ++ ".age" in
  match tempfile_fault w (fs p) with
  | Some (CreateFails msg) => raise (OSError msg)
  | Some (WriteFails written msg) =>
      modify (set_fs (<[name := mkFile written 384]> (fs p)));;
      raise (OSError msg)
  | None =>
      modify (set_fs (<[name := mkFile text 384]> (fs p)));;
      ret name
  end.

Definition plugin_not_installed_msg : string :=
  "age-plugin-yubikey not installed. " ++
  "Install it from https://github.com/str4d/age-plugin-yubikey".

(** The [try] statement of [decrypt_age_key] (lines 496-511). *)
Definition decrypt_with_identity (w : Machine) (identity_file encrypted_key : string)
  : M Proc string :=
  try_finally
    (try_except
       (result ← subprocess_run w true ["age"; "-d"; "-i"; identity_file]
                   encrypted_key;
        decode (stdout result))
       (fun e =>
          match e with
          | CalledProcessError _ _ err =>
              text ← decode err;
              raise (YubiKeyError ("Age decryption failed: " ++ text))
          | _ => raise e
          end))
    (try_except (os_unlink identity_file)
       (fun e => if is_OSError e then ret tt else raise e)).

(** [YubiKeyManager.decrypt_age_key] (lines 466-511). *)
Definition decrypt_age_key (w : Machine) (encrypted_key : string) : M State string :=
  installed ← _check_age_plugin_installed w;
  if negb installed then raise (YubiKeyError plugin_not_installed_msg)
  else
    identity ← _get_yubikey_identity w;
    identity_file ← lift (named_temporary_file w identity);
    lift (decrypt_with_identity w identity_file encrypted_key).

(** *** Vocabulary of the statements about this module *)

(** The three host signals that [is_wsl2] checks: the kernel version
    string, the kernel release and the marker variable. *)
Definition signal_version (f : FS) : bool :=
  match f !! "/proc/version" with
  | Some file => readable file && contains "microsoft" (lower (content file))
  | None => false
  end.

Definition signal_release (w : World) (f : FS) : bool :=
  match exec w f ["uname"; "-r"] "" with
  | Exited _ out _ => contains "microsoft" (lower out)
  | NotFound => false
  end.

Definition signal_variable (w : World) : bool :=
  truthy (environ w !! "WSL_DISTRO_NAME").

(** The environment is the compatibility layer: some signal matches. *)
Definition compatibility_layer (w : World) (f : FS) : bool :=
  signal_version f || signal_release w f || signal_variable w.

(** The effects of one run of [is_wsl2]: it stops at the first signal that
    matches. *)
Definition wsl_effects (w : World) (f : FS) : list effect :=
  Open "/proc/version" ::
  (if signal_version f then []
   else Spawn ["uname"; "-r"] ::
        (if signal_release w f then [] else [Getenv "WSL_DISTRO_NAME"])).

(** The version query of [cmd] succeeds. *)
Definition probe_ok (w : World) (f : FS) (cmd : string) : bool :=
  match exec w f [cmd; "--version"] "" with
  | Exited rc _ _ => rc =? 0
  | NotFound => false
  end.

(** The effects of [version_probe]: it stops at the first success. *)
Fixpoint probe_effects (w : World) (f : FS) (commands : list string)
  : list effect :=
  match commands with
  | [] => []
  | cmd :: rest =>
      Spawn [cmd; "--version"] ::
      (if probe_ok w f cmd then [] else probe_effects w f rest)
  end.


(** The runs of the hardware-key plugin among the effects, in order. *)
Definition is_plugin_run (argv : list string) : bool :=
  match argv with
  | cmd :: _ => String.eqb cmd plugin || String.eqb cmd plugin_exe
  | [] => false
  end.

Definition plugin_runs (t : list effect) : list (list string) :=
  List.filter is_plugin_run (spawned t).

(** The build that matches the environment, and the other one. *)
Definition first_build (wsl : bool) : string :=
  if wsl then plugin_exe else plugin.

Definition other_build (wsl : bool) : string :=
  if wsl then plugin else plugin_exe.

(** The order of the attempts of a lookup whose outcome is [r]: the build
    that matches the environment is run first; the other build is run when
    the first is not on the search path and, inside the compatibility
    layer, also when the first exits with a non-zero status; outside the
    compatibility layer a non-zero status of the first build ends the lookup
    with a [YubiKeyError]. *)
Definition tried_in_order (w : World) (s : State) (what : string)
    (args : list string) (r : result string * State) : Prop :=
  let wsl := compatibility_layer w (fs (proc s)) in
  let first := first_build wsl :: args in
  let other := other_build wsl :: args in
  let runs := plugin_runs (since (proc s) (proc (snd r))) in
  match exec w (fs (proc s)) first "" with
  | NotFound => runs = [first; other]
  | Exited rc out err =>
      if rc =? 0 then runs = [first]
      else if wsl then runs = [first; other]
      else runs = [first]
           /\ fst r = Raise (YubiKeyError
                               ("Failed to get " ++ what ++ " with "
                                ++ first_build wsl ++ ": " ++ err))
  end.

End Yubikey.

(** ** Concrete situations used to exercise the definitions *)

Module Scenario.

Import Client.
#[local] Open Scope Z_scope.

(** The instant of the calls. *)
Definition now0 : Z := 1700000000000000.

(** A held credential with the given expiry and validity. *)
Definition held (exp : option Z) (v : bool) : Credentials :=
  mkCredentials (Some "ya29.old") "1//0refresh"
    "https://oauth2.googleapis.com/token" "client-id" "client-secret" exp v.

(** A client that holds [c] and has not called anything yet. *)
Definition client_with (c : Credentials) : GmailClient :=
  mkGmailClient (Some c) None [] 0 0.

(** Token endpoints: one that grants an hour, one that times out, one that
    reports a revoked refresh token. *)
Definition granting : nat -> refresh_response :=
  fun _ => Granted "ya29.new" (Some (now0 + microseconds 3600)) true.

Definition timing_out : nat -> refresh_response :=
  fun _ => Refused (Exception "Connection timed out" None).

Definition revoking : nat -> refresh_response :=
  fun _ => Refused (Exception "invalid_grant: Token has been expired or revoked." None).

Definition world_with (endpoint : nat -> refresh_response) : Client.World :=
  Client.mkWorld now0 endpoint None ∅.

(** A credential that is valid for 30 more seconds. *)
Definition expiring_soon : Credentials :=
  held (Some (now0 + microseconds 30)) true.

(** A credential that is valid for another hour. *)
Definition fresh : Credentials :=
  held (Some (now0 + microseconds 3600)) true.

(** A remote operation that answers 401 every time. *)
Definition always_401 : Operation string :=
  fun _ => Raise (HttpError 401 "Unauthorized").

(** A remote operation that answers 401 once, then succeeds. *)
Definition once_401 : Operation string :=
  fun n => match n with
           | O => Raise (HttpError 401 "Unauthorized")
           | _ => Ok "profile"
           end.





(** External executables given by a table from command lines to outcomes;
    a command line that is not in the table is not on the search path. *)
Definition stub (table : list (list string * spawn))
  : FS -> list string -> string -> spawn :=
  fun _ argv _ =>
    match List.find (fun row => bool_decide (fst row = argv)) table with
    | Some row => snd row
    | None => NotFound
    end.

Definition machine (table : list (list string * spawn)) : Host.World :=
  Host.mkWorld (stub table) ∅ (fun _ => "/tmp/tmpk3v9x1qz") 18
    (mkFile "AGE-SECRET-KEY-1QQQQ" 420).

(** A WSL2 machine: the kernel release says so, [ykman] is installed but
    finds no smart-card transport. *)
Definition wsl_table : list (list string * spawn) :=
  [ (["uname"; "-r"], Exited 0 "5.15.90.1-microsoft-standard-WSL2" "");
    (["ykman"; "--version"], Exited 0 "YubiKey Manager (ykman) version: 5.2.1" "");
    (["ykman"; "info"],
     Exited 1 "" "ERROR: PC/SC not available. Smart card (CCID) protocols will not function.") ].

(** The same machine without any build of the plugin, and with the Windows
    build installed. *)
Definition wsl_bare : Host.World := machine wsl_table.

Definition wsl_with_exe : Host.World :=
  machine (wsl_table ++
           [ ([Yubikey.plugin_exe; "--version"],
              Exited 0 "age-plugin-yubikey 0.5.0" "") ])%list.

(** A WSL2 machine on which the Windows build of the plugin runs and fails
    on slot 1 while the Linux build answers. *)
Definition wsl_exe_failing : Host.World :=
  machine (wsl_table ++
           [ ([Yubikey.plugin_exe; "--list"; "--slot"; "1"],
              Exited 1 "" "Error: Failed to connect to the YubiKey");
             ([Yubikey.plugin; "--list"; "--slot"; "1"],
              Exited 0 "#    Recipient:
age1yubikey1qwerty
" "") ])%list.

(** A native Linux machine on which the Linux build runs and fails and the
    Windows build would answer. *)
Definition native_failing : Host.World :=
  machine [ (["uname"; "-r"], Exited 0 "6.8.0-45-generic" "");
            ([Yubikey.plugin; "--list"; "--slot"; "1"],
             Exited 1 "" "Error: Failed to connect to the YubiKey");
            ([Yubikey.plugin_exe; "--list"; "--slot"; "1"],
             Exited 0 "age1yubikey1qwerty" "") ].

(** A native machine with the plugin, the identity of slot 1, and an [age]
    that refuses to decrypt: the failing tool stub. *)
Definition decrypt_failing : Host.World :=
  machine [ (["uname"; "-r"], Exited 0 "6.8.0-45-generic" "");
            ([Yubikey.plugin; "--version"], Exited 0 "age-plugin-yubikey 0.5.0" "");
            ([Yubikey.plugin; "--identity"; "--slot"; "1"],
             Exited 0 "AGE-PLUGIN-YUBIKEY-1QQQQ" "");
            (["age"; "-d"; "-i"; "/tmp/tmpk3v9x1qz.age"],
             Exited 1 "" "age: error: no identity matched any of the recipients") ].


(** A vault whose private key is kept in the home directory, a process
    that has done nothing, and one in which both key files exist. *)
Definition vault : Crypto.VaultCrypto :=
  Crypto.mkVaultCrypto "/home/u/.kimi-vault/key.txt".

Definition idle : Proc := mkProc ∅ [].


(** A manager that has not probed anything, in a process that has done
    nothing. *)
Definition new_manager : Yubikey.State :=
  Yubikey.mkState
    (Yubikey.mkYubiKeyManager (Yubikey.mkVaultConfig true "1") None None)
    (mkProc ∅ []).

End Scenario.

(** ** More situations of the token guard *)

Module GuardCases.

Import Client.
#[local] Open Scope Z_scope.


(** A client that holds nothing and remembers why. *)
Definition failed_client : GmailClient :=
  mkGmailClient None (Some "Token refresh failed: Connection timed out") [] 1 0.

End GuardCases.

(** ** [nakimi/core/yubikey.py]: the operations behind the availability gate *)

Module YubikeyOps.

Import Yubikey.
#[local] Open Scope Z_scope.

Definition not_available_msg : string := "YubiKey not available".

(** [YubiKeyManager.verify_pin] (lines 513-543). *)
Definition verify_pin (w : Machine) (pin : string) : M State bool :=
  available ← is_available w;
  if negb available then ret false
  else
    installed ← _check_ykman_installed w;
    if installed then
      try_except
        (lift (subprocess_run w true ["ykman"; "piv"; "verify-pin"; pin] "");;
         ret true)
        (fun e =>
           match e with
           | CalledProcessError _ _ _ => ret false
           | _ => raise e
           end)
    else
      wsl ← lift (is_wsl2 w);
      if wsl then ret true else ret false.

Definition change_pin_wsl_msg : string :=
  "PIN change not available in WSL2 mode. " ++
  "Use Windows ykman directly: ykman.exe piv change-pin".

(** [YubiKeyManager.change_pin] (lines 545-579). *)
Definition change_pin (w : Machine) (old_pin new_pin : string) : M State bool :=
  available ← is_available w;
  if negb available then ret false
  else
    installed ← _check_ykman_installed w;
    if installed then
      try_except
        (lift (subprocess_run w true
                 ["ykman"; "piv"; "change-pin"; old_pin; new_pin] "");;
         ret true)
        (fun e =>
           match e with
           | CalledProcessError _ _ _ => ret false
           | _ => raise e
           end)
    else
      wsl ← lift (is_wsl2 w);
      if wsl then raise (YubiKeyError change_pin_wsl_msg) else ret false.

(** [line.split(":", 1)] for a line that contains a colon: the text before
    the first colon and the text after it. *)
Fixpoint split_once (sep : ascii) (s : string) : string * string :=
  match s with
  | EmptyString => (EmptyString, EmptyString)
  | String c s' =>
      if Ascii.eqb c sep then (EmptyString, s')
      else let (k, v) := split_once sep s' in (String c k, v)
  end.

(** The dictionary built from the output of [ykman piv info slot]
    (lines 343-347): one entry per line that contains a colon, a later line
    replacing an earlier one with the same key. *)
Definition slot_info_of (out : string) : gmap string string :=
  fold_left
    (fun info line =>
       if contains ":" line
       then let (key, value) := split_once ":"%char line in
            <[strip key := strip value]> info
       else info)
    (split (ascii_of_nat 10) out) ∅.

(** [YubiKeyManager.get_slot_info] (lines 324-359). *)
Definition get_slot_info (w : Machine) : M State (gmap string string) :=
  available ← is_available w;
  if negb available then raise (YubiKeyError not_available_msg)
  else
    s ← get;
    let slot := yubikey_slot (config (self s)) in
    installed ← _check_ykman_installed w;
    if installed then
      try_except
        (result ← lift (subprocess_run w true
                          ["ykman"; "piv"; "info"; "slot"; slot] "");
         ret (slot_info_of (stdout result)))
        (fun e =>
           match e with
           | CalledProcessError _ _ err =>
               wsl ← lift (is_wsl2 w);
               if wsl
               then ret {[ "slot" := slot;
                           "note" := "WSL2 mode - limited slot info available" ]}
               else raise (YubiKeyError ("Failed to get slot info: " ++ err))
           | _ => raise e
           end)
    else
      wsl ← lift (is_wsl2 w);
      if wsl
      then ret {[ "slot" := slot;
                  "note" := "WSL2 mode - ykman unavailable, limited info" ]}
      else raise (YubiKeyError "Cannot get slot info - ykman not installed").

(** [YubiKeyManager.export_public_key] (lines 361-404). *)
Definition export_public_key (w : Machine) (slot : option string)
  : M State string :=
  available ← is_available w;
  if negb available then raise (YubiKeyError not_available_msg)
  else
    s ← get;
    let slot := default (yubikey_slot (config (self s)))
                  (if truthy slot then slot else None) in
    installed ← _check_ykman_installed w;
    if installed then
      try_except
        (result ← lift (subprocess_run w true
                          ["ykman"; "piv"; "export-certificate"; slot; "-"] "");
         ret (strip (stdout result)))
        (fun e =>
           match e with
           | CalledProcessError _ _ err =>
               wsl ← lift (is_wsl2 w);
               if wsl
               then raise (YubiKeyError
                             ("Public key export not available in WSL2 mode. "
                              ++ "Use Windows ykman directly if needed."))
               else raise (YubiKeyError ("Failed to export public key: " ++ err))
           | _ => raise e
           end)
    else
      wsl ← lift (is_wsl2 w);
      if wsl
      then raise (YubiKeyError
                    ("Public key export requires ykman, which is unavailable in WSL2. "
                     ++ "Use Windows ykman directly: ykman.exe piv export-certificate"))
      else raise (YubiKeyError "Cannot export public key - ykman not installed").

(** [YubiKeyManager.encrypt_age_key] (lines 434-464).  The standard input
    of [age] is the UTF-8 encoding of the key, which is how strings are
    kept here. *)
Definition encrypt_age_key (w : Machine) (age_private_key : string)
  : M State string :=
  installed ← _check_age_plugin_installed w;
  if negb installed then raise (YubiKeyError plugin_not_installed_msg)
  else
    recipient ← _get_yubikey_recipient w;
    try_except
      (result ← lift (subprocess_run w true ["age"; "-r"; recipient]
                        age_private_key);
       ret (stdout result))
      (fun e =>
         match e with
         | CalledProcessError _ _ err =>
             text ← decode err;
             raise (YubiKeyError ("Age encryption failed: " ++ text))
         | _ => raise e
         end).

(** The native tool is installed, as [_check_ykman_installed] will find. *)
Definition ykman_installed (w : World) (s : State) : bool :=
  match _ykman_available (self s) with
  | Some b => b
  | None => probe_ok w (fs (proc s)) "ykman"
  end.

(** A run of [age] that encrypts to recipient [r]. *)
Definition encrypts_to_yubikey (e : effect) : Prop :=
  forall r rest, e = Spawn ("age" :: "-r" :: r :: rest) ->
                 startswith r "age1yubikey1" = true.

End YubikeyOps.

(** ** More situations of the YubiKey manager *)

Module YubikeyCases.

Import Yubikey.
#[local] Open Scope Z_scope.

(** A manager whose configuration has the YubiKey switched off, although
    an earlier probe had found one. *)
Definition disabled_manager : State :=
  mkState (mkYubiKeyManager (mkVaultConfig false "1") (Some true) (Some true))
          (mkProc ∅ []).

(** A manager inside WSL2 that has found the key through the plugin and
    has no [ykman]. *)
Definition wsl_manager : State :=
  mkState (mkYubiKeyManager (mkVaultConfig true "1") (Some false) (Some true))
          (mkProc ∅ []).

(** A native machine with [ykman] and a key, without the plugin. *)
Definition native_with_key : Host.World :=
  Scenario.machine
    [ (["uname"; "-r"], Exited 0 "6.8.0-45-generic" "");
      (["ykman"; "--version"], Exited 0 "YubiKey Manager (ykman) version: 5.2.1" "");
      (["ykman"; "info"], Exited 0 "Device type: YubiKey 5 NFC" "") ].

(** A native machine with the plugin and [age]. *)
Definition native_encrypting : Host.World :=
  Scenario.machine
    [ (["uname"; "-r"], Exited 0 "6.8.0-45-generic" "");
      ([plugin; "--version"], Exited 0 "age-plugin-yubikey 0.5.0" "");
      ([plugin; "--list"; "--slot"; "1"],
       Exited 0 "age1yubikey1qwerty" "");
      (["age"; "-r"; "age1yubikey1qwerty"], Exited 0 "ciphertext" "") ].

End YubikeyCases.

(** ** [nakimi/core/yubikey.py]: the diagnostic report and the test double *)

Module Diagnostics.

Import Yubikey.
#[local] Open Scope Z_scope.

(** The values of the report. *)
Inductive dvalue : Type :=
| DBool (b : bool)
| DStr (s : string)
| DInt (n : Z).

(** What the report says about a run of [ykman info] that completed
    (lines 291-306). *)
Definition info_entries (w : Machine) (result : CompletedProcess)
    (d : gmap string dvalue) : M State (gmap string dvalue) :=
  let d1 :=
    <["ykman_returncode" := DInt (returncode result)]>
      (<["ykman_stderr" := DStr (strip (stderr result))]>
         (<["ykman_stdout" := DStr (strip (stdout result))]>
            (<["yubikey_detected" := DBool (returncode result =? 0)]> d))) in
  if truthy (Some (stderr result)) then
    if contains "PC/SC not available" (stderr result) then
      let d2 := <["error_type" := DStr "pcsc_not_available"]>
                  (<["pcsc_available" := DBool false]> d1) in
      wsl ← lift (is_wsl2 w);
      if wsl then
        found ← _check_yubikey_present_wsl2 w;
        ret (<["yubikey_detected" := DBool found]>
               (<["wsl2_mode" := DBool true]> d2))
      else ret d2
    else ret (<["pcsc_available" := DBool true]> d1)
  else ret d1.

(** The alternative detection of the report (lines 311-313, 316-318). *)
Definition wsl2_entries (w : Machine) (d : gmap string dvalue)
  : M State (gmap string dvalue) :=
  found ← _check_yubikey_present_wsl2 w;
  ret (<["yubikey_detected" := DBool found]> (<["wsl2_mode" := DBool true]> d)).

(** [YubiKeyManager.get_diagnostics] (lines 266-322). *)
Definition get_diagnostics (w : Machine) : M State (gmap string dvalue) :=
  s ← get;
  ykman ← _check_ykman_installed w;
  plugin_installed ← _check_age_plugin_installed w;
  wsl ← lift (is_wsl2 w);
  let diagnostics : gmap string dvalue :=
    <["wsl2_environment" := DBool wsl]>
      (<["age_plugin_installed" := DBool plugin_installed]>
         (<["ykman_installed" := DBool ykman]>
            (<["yubikey_slot" := DStr (yubikey_slot (config (self s)))]>
               (<["yubikey_enabled" := DBool (yubikey_enabled (config (self s)))]>
                  ∅)))) in
  if ykman then
    try_except
      (result ← lift (subprocess_run w false ["ykman"; "info"] "");
       info_entries w result diagnostics)
      (fun e =>
         let d := <["error" := DStr (str e)]>
                    (<["yubikey_detected" := DBool false]> diagnostics) in
         wsl' ← lift (is_wsl2 w);
         if wsl' then wsl2_entries w d else ret d)
  else
    wsl' ← lift (is_wsl2 w);
    if wsl' then wsl2_entries w diagnostics
    else ret (<["yubikey_detected" := DBool false]> diagnostics).

End Diagnostics.

Module Mock.

Import Yubikey.
#[local] Open Scope Z_scope.

(** [MockYubiKeyManager]: the configuration, the flag and the dictionary of
    the keys that were "encrypted". *)
Record MockYubiKeyManager : Type := mkMock {
  mock_config : VaultConfig;
  mock_present : bool;
  mock_encrypted_keys : gmap string string
}.

(** [MockYubiKeyManager.is_available] (lines 598-599). *)
Definition is_available (m : MockYubiKeyManager) : bool :=
  yubikey_enabled (mock_config m) && mock_present m.

(** The identifier of the next key: ["mock-key-"] and the number of keys
    stored so far. *)
Definition next_key_id (m : MockYubiKeyManager) : string :=
  "mock-key-" ++ str_of_int (Z.of_nat (size (mock_encrypted_keys m))).

(** [MockYubiKeyManager.encrypt_age_key] (lines 601-605). *)
Definition encrypt_age_key (age_private_key : string)
  : M MockYubiKeyManager string :=
  m ← get;
  let key_id := next_key_id m in
  modify (fun m => mkMock (mock_config m) (mock_present m)
                     (<[key_id := age_private_key]> (mock_encrypted_keys m)));;
  ret ("MOCK:" ++ key_id).

(** [data[5:]]. *)
Definition from5 (data : string) : string :=
  substring 5 (String.length data - 5) data.

(** [MockYubiKeyManager.decrypt_age_key] (lines 607-614). *)
Definition decrypt_age_key (encrypted_key : string)
  : M MockYubiKeyManager string :=
  data ← decode encrypted_key;
  m ← get;
  if startswith data "MOCK:" then
    match mock_encrypted_keys m !! from5 data with
    | Some key => ret key
    | None => raise (YubiKeyError "Mock key not found")
    end
  else raise (YubiKeyError "Mock key not found").

(** [MockYubiKeyManager.verify_pin] and [change_pin] (lines 616-622). *)
Definition verify_pin (pin : string) : bool := String.eqb pin "123456".

Definition change_pin (old_pin new_pin : string) : bool :=
  String.eqb old_pin "123456" && (6 <=? String.length new_pin)%nat.

(** The dictionary holds exactly the identifiers that were handed out. *)
Definition well_numbered (m : MockYubiKeyManager) : Prop :=
  forall k, is_Some (mock_encrypted_keys m !! k) <->
            exists n, (n < size (mock_encrypted_keys m))%nat
                      /\ k = "mock-key-" ++ str_of_int (Z.of_nat n).

End Mock.

(** ** [kimi_vault/crypto.py]: the public key, encryption, decryption and
    deletion *)

Module CryptoOps.

Import Crypto.
#[local] Open Scope Z_scope.

(** The host together with what its tools do to the files:
    [after_run fs argv] is the file system once the process started as
    [argv] on [fs] has exited, and [mkstemp_name fs prefix suffix] is the
    path at which [tempfile.mkstemp(prefix=prefix, suffix=suffix)] creates
    its file. *)
Record Tools : Type := mkTools {
  host : World;
  after_run : FS -> list string -> FS;
  mkstemp_name : FS -> string -> string -> string
}.

(** The same on a machine with faults. *)
Record Plant : Type := mkPlant {
  machine : Machine;
  plant_after_run : FS -> list string -> FS;
  plant_mkstemp_name : FS -> string -> string -> string
}.

(** The tools on the machine without faults. *)
Definition sound (t : Tools) : Plant :=
  mkPlant (reliable (host t)) (after_run t) (mkstemp_name t).

(** [subprocess.run(argv, capture_output=True, check=check)] for a tool
    that writes files: the exit status is examined after the process has
    exited, that is, after its writes. *)
Definition run_tool (t : Plant) (check : bool) (argv : list string)
  : M Proc CompletedProcess :=
  p ← get;
  modify (log (Spawn argv));;
  match refused (machine t) (fs p) argv with
  | Some why => raise (start_error why argv)
  | None =>
      match exec (world (machine t)) (fs p) argv "" with
      | NotFound =>
          raise (FileNotFoundError
                   ("No such file or directory: " ++ hd EmptyString argv))
      | Exited rc out err =>
          modify (set_fs (plant_after_run t (fs p) argv));;
          if check && negb (rc =? 0) then raise (CalledProcessError rc out err)
          else ret (mkCompleted rc out err)
      end
  end.


(** What text mode makes of the line ends of a file (universal newlines):
    a carriage return, alone or followed by a line feed, is read as a line
    feed. *)
Fixpoint universal_newlines (s : string) : string :=
  match s with
  | EmptyString => EmptyString
  | String c s' =>
      if Ascii.eqb c (ascii_of_nat 13) then
        String (ascii_of_nat 10)
          match s' with
          | String c' s'' =>
              if Ascii.eqb c' (ascii_of_nat 10) then universal_newlines s''
              else universal_newlines s'
          | EmptyString => EmptyString
          end
      else String c (universal_newlines s')
  end.

(** The lines of a text whose lines end with a line feed, each with its
    line feed. *)
Fixpoint keepends (s : string) : list string :=
  match s with
  | EmptyString => []
  | String c s' =>
      if Ascii.eqb c (ascii_of_nat 10) then String c EmptyString :: keepends s'
      else match keepends s' with
           | [] => [String c EmptyString]
           | l :: ls => String c l :: ls
           end
  end.

(** [for line in f], for a file opened in text mode that holds [s]: the
    lines end at a line feed, a carriage return or both, and each is given
    with a line feed for its end. *)
Definition readlines (s : string) : list string :=
  keepends (universal_newlines s).

(** [VaultCrypto.get_public_key] (lines 74-89). *)
Definition get_public_key (self : VaultCrypto) : M Proc string :=
  p ← get;
  if exists_ (fs p) (key_pub_file self) then
    text ← read_text (key_pub_file self);
    ret (strip text)
  else if negb (exists_ (fs p) (key_file self)) then
    raise (VaultCryptoError ("Key file not found: " ++ key_file self))
  else
    text ← read_text (key_file self);
    match List.find (fun line => startswith line "# public key:")
                    (readlines text) with
    | Some line => ret (strip (nth 1 (split ":"%char line) EmptyString))
    | None => raise (VaultCryptoError "Could not find public key")
    end.

(** The handler [except subprocess.CalledProcessError as e] of [encrypt],
    [decrypt] and [decrypt_to_memory], after its clean-up: the message is
    built from [e.stderr.decode()]. *)
Definition report_failure {A} (what : string) (e : exn) : M Proc A :=
  match e with
  | CalledProcessError _ _ err =>
      text ← decode err;
      raise (VaultCryptoError (what ++ text))
  | _ => raise e
  end.

(** [VaultCrypto.encrypt] (lines 91-129).  Paths are the strings that
    [Path] prints. *)
Definition encrypt (t : Plant) (self : VaultCrypto) (input_file : string)
    (output_file recipient : option string) : M Proc string :=
  _check_age_installed (machine t);;
  p ← get;
  if negb (exists_ (fs p) input_file) then
    raise (VaultCryptoError ("Input file not found: " ++ input_file))
  else
    let output_path := match output_file with
                       | None => input_file ++ ".age"
                       | Some o => o
                       end in
    pub_key ← match recipient with
              | Some r => if truthy recipient then ret r
                          else get_public_key self
              | None => get_public_key self
              end;
    try_except
      (run_tool t true ["age"; "-r"; pub_key; "-o"; output_path; input_file];;
       ret output_path)
      (report_failure "Encryption failed: ").


(** [VaultCrypto.decrypt_to_memory] (lines 176-196). *)
Definition decrypt_to_memory (t : Plant) (self : VaultCrypto)
    (input_file : string) : M Proc string :=
  _check_age_installed (machine t);;
  p ← get;
  if negb (exists_ (fs p) input_file) then
    raise (VaultCryptoError ("Encrypted file not found: " ++ input_file))
  else
    try_except
      (result ← run_tool t true ["age"; "-d"; "-i"; key_file self; input_file];
       decode (stdout result))
      (report_failure "Decryption failed: ").


(** *** Vocabulary of the statements about this module *)

(** [age --version] can be started and exits with status 0. *)
Definition age_installed (t : Tools) (f : FS) : bool :=
  match exec (host t) f ["age"; "--version"] "" with
  | Exited 0 _ _ => true
  | _ => false
  end.


(** An effect that reads neither key file. *)
Definition reads_no_key (self : VaultCrypto) (e : effect) : Prop :=
  e <> Open (key_file self) /\ e <> Open (key_pub_file self).

End CryptoOps.

(** Tools on a host are read as the tools on the machine without faults
    wherever a plant is expected. *)
Coercion CryptoOps.sound : CryptoOps.Tools >-> CryptoOps.Plant.

(** ** Situations of the vault's files *)

Module CryptoCases.

Import Crypto CryptoOps.
#[local] Open Scope Z_scope.

(** Tools that leave the files alone, on a host that names its temporary
    files after a fixed pattern. *)
Definition quiet (w : Host.World) : Tools :=
  mkTools w (fun f _ => f)
    (fun _ prefix suffix => "/tmp/" ++ prefix ++ "k3v9x1qz" ++ suffix).

(** A machine whose [age-keygen] announces the new public key on a comment
    line. *)
Definition announcing : Host.World :=
  Scenario.machine
    [ (["age"; "--version"], Exited 0 "v1.1.1" "");
      (["age-keygen"; "-o"; "/home/u/.kimi-vault/key.txt"],
       Exited 0 "" "# public key: age1zzz") ].


(** A machine with [age] that encrypts to a friend's key. *)
Definition encrypting : Tools :=
  quiet (Scenario.machine
           [ (["age"; "--version"], Exited 0 "v1.1.1" "");
             (["age"; "-r"; "age1friend"; "-o"; "/home/u/secrets.json.age";
               "/home/u/secrets.json"],
              Exited 0 "" "") ]).

(** A process that sees the private key and the encrypted secrets; one
    that sees the encrypted secrets only; one that sees the secrets in the
    clear. *)
Definition sealed : Proc :=
  mkProc {[ "/home/u/.kimi-vault/key.txt" := mkFile "AGE-SECRET-KEY-1OLD" 384;
            "/home/u/secrets.json.age" := mkFile "age-encryption.org/v1" 420 ]}
         [].


Definition plain : Proc :=
  mkProc {[ "/home/u/secrets.json" := mkFile "{}" 384 ]} [].


End CryptoCases.

(** ** Situations of the slot operations *)

Module SlotCases.

Import Yubikey.
#[local] Open Scope Z_scope.

(** A native machine with [ykman] and a key whose slot 1 holds a
    certificate. *)
Definition native_piv : Host.World :=
  Scenario.machine
    [ (["uname"; "-r"], Exited 0 "6.8.0-45-generic" "");
      (["ykman"; "--version"], Exited 0 "YubiKey Manager (ykman) version: 5.2.1" "");
      (["ykman"; "info"], Exited 0 "Device type: YubiKey 5 NFC" "");
      (["ykman"; "piv"; "info"; "slot"; "1"],
       Exited 0 "Algorithm: ECCP256" "");
      (["ykman"; "piv"; "export-certificate"; "1"; "-"],
       Exited 0 "-----BEGIN CERTIFICATE-----
" "") ].

End SlotCases.

(** * Properties *)

(** Unfold the operations of the monad. *)
Ltac run_m :=
  unfold bind, ret, raise, get, modify, try_except, try_finally in *;
  simpl in *.

(** ** The token guard *)

Section TokenGuard.

Import Client.
#[local] Open Scope Z_scope.

Variable w : Client.World.

(** A refresh sends exactly one request when credentials are held. *)
Lemma refresh_token_calls (s : GmailClient) (c : Credentials) :
  creds s = Some c ->
  refresh_calls (snd (_refresh_token w s)) = S (refresh_calls s).
Proof.
  intros Hc. unfold _refresh_token, creds_refresh. run_m. rewrite Hc.
  destruct (token_endpoint w (refresh_calls s)) as [tok exp v|e]; simpl.
  - reflexivity.
  - destruct (contains "invalid_grant" (str e)); reflexivity.
Qed.

(** A refresh never sends more than one request. *)
Lemma refresh_token_calls_le (s : GmailClient) :
  (refresh_calls (snd (_refresh_token w s)) <= S (refresh_calls s))%nat.
Proof.
  destruct (creds s) as [c|] eqn:Hc.
  - rewrite (refresh_token_calls s c Hc). lia.
  - unfold _refresh_token. run_m. rewrite Hc. simpl. lia.
Qed.

(** A refresh does not invoke wrapped operations. *)
Lemma refresh_token_api_calls (s : GmailClient) :
  api_calls (snd (_refresh_token w s)) = api_calls s.
Proof.
  unfold _refresh_token, creds_refresh. run_m.
  destruct (creds s) as [c|]; [|reflexivity].
  destruct (token_endpoint w (refresh_calls s)) as [tok exp v|e]; simpl.
  - reflexivity.
  - destruct (contains "invalid_grant" (str e)); reflexivity.
Qed.

(** The number of refresh requests sent by the freshness check. *)
Lemma ensure_valid_token_calls (s : GmailClient) (c : Credentials) :
  creds s = Some c ->
  refresh_calls (snd (_ensure_valid_token w s)) =
  if refresh_due w c then S (refresh_calls s) else refresh_calls s.
Proof.
  intros Hc. pose proof (refresh_token_calls s c Hc) as Hr.
  unfold _ensure_valid_token. run_m. rewrite Hc.
  destruct (refresh_due w c); [|reflexivity].
  destruct (_refresh_token w s) as [[u|e] s1]; simpl in *; exact Hr.
Qed.

(** C2: with a credential held, the freshness check sends no refresh
    request (and changes nothing) when the credential is valid and expires
    more than 300 seconds from now; it sends exactly one refresh request
    when the expiry is in the past, when fewer than 300 seconds remain, when
    the credential is marked invalid, and when the expiry is absent. *)
Theorem ensure_valid_token_refresh_policy (s : GmailClient) (c : Credentials) :
  creds s = Some c ->
  (forall t, valid c = true -> expiry c = Some t ->
             t - utcnow w > microseconds 300 ->
             _ensure_valid_token w s = (Ok tt, s))
  /\ ((exists t, expiry c = Some t /\ t < utcnow w)
      \/ (exists t, expiry c = Some t /\ t - utcnow w < microseconds 300)
      \/ valid c = false
      \/ expiry c = None ->
      refresh_calls (snd (_ensure_valid_token w s)) = S (refresh_calls s)).
Proof.
  intros Hc. split.
  - intros t Hv He Hfar.
    unfold _ensure_valid_token. run_m. rewrite Hc.
    unfold refresh_due, expires_in, margin_seconds. rewrite Hv, He. simpl.
    destruct (Z.ltb_spec (t - utcnow w) (microseconds 300)); [lia|reflexivity].
  - intros Hdue. rewrite (ensure_valid_token_calls s c Hc).
    assert (refresh_due w c = true) as ->; [|reflexivity].
    unfold refresh_due, expires_in, margin_seconds.
    apply orb_true_iff.
    destruct Hdue as [[t [He Hp]]|[[t [He Hm]]|[Hv|He]]].
    + right. rewrite He. apply Z.ltb_lt. unfold microseconds in *. lia.
    + right. rewrite He. apply Z.ltb_lt. exact Hm.
    + left. rewrite Hv. reflexivity.
    + right. rewrite He. reflexivity.
Qed.

(** [_handle_api_error] returns [None], or raises on a [resp] that is
    [None], and counts nothing. *)
Lemma handle_api_error_spec {A} (e : exn) (s : GmailClient) :
  fst (_handle_api_error (A:=A) e s)
  = (if resp_is_None e then Raise (AttributeError none_status_msg)
     else Ok None)
  /\ refresh_calls (snd (_handle_api_error (A:=A) e s)) = refresh_calls s
  /\ api_calls (snd (_handle_api_error (A:=A) e s)) = api_calls s
  /\ (is_Some (_auth_error s) ->
      is_Some (_auth_error (snd (_handle_api_error (A:=A) e s)))).
Proof.
  unfold _handle_api_error. run_m.
  destruct (resp_is_None e); simpl; [auto|].
  destruct (resp_status e) as [st|]; simpl; [|auto].
  destruct (st =? 0); simpl; [auto|].
  destruct (st =? 401); simpl; [eauto 6|].
  destruct (st =? 403); simpl; [auto|].
  destruct (st =? 429); simpl; auto.
Qed.

(** One call of the retry wrapper invokes the wrapped
    operation at most twice and sends at most one refresh request, whatever
    the operation and the token endpoint answer. *)
Lemma execute_with_retry_bounded {A} (api_call : Operation A) (s : GmailClient) :
  (api_calls (snd (_execute_with_retry w api_call s)) <= api_calls s + 2)%nat
  /\ (refresh_calls (snd (_execute_with_retry w api_call s))
      <= refresh_calls s + 1)%nat.
Proof.
  unfold _execute_with_retry, invoke. run_m.
  destruct (api_call (api_calls s)) as [x|e]; simpl; [lia|].
  pose proof (handle_api_error_spec (A:=A) e (count_api_call s))
    as (_ & Hr & Ha & _). simpl in Hr, Ha.
  destruct (is_HttpError e); [|rewrite Hr, Ha; lia].
  destruct (resp_is_None e); simpl; [lia|].
  case_bool_decide; [|rewrite Hr, Ha; lia].
  pose proof (refresh_token_calls_le (count_api_call s)) as Hle.
  pose proof (refresh_token_api_calls (count_api_call s)) as Hsame.
  destruct (_refresh_token w (count_api_call s)) as [[u|e1] s1]; simpl in *.
  - destruct (api_call (api_calls s1)) as [x|e2]; simpl; [lia|].
    destruct (is_GmailAuthError e2); simpl; lia.
  - destruct (is_GmailAuthError e1); simpl; lia.
Qed.

(** What the retry path does catch: a forced refresh that reports the
    refresh token as revoked gives [None]. *)
Lemma execute_with_retry_revoked_gives_none {A} (api_call : Operation A)
    (s : GmailClient) (c : Credentials) (m1 : string) (e : exn) :
  creds s = Some c ->
  api_call (api_calls s) = Raise (HttpError 401 m1) ->
  token_endpoint w (refresh_calls s) = Refused e ->
  contains "invalid_grant" (str e) = true ->
  fst (_execute_with_retry w api_call s) = Ok None.
Proof.
  intros Hc H1 Hr Hm.
  unfold _execute_with_retry, invoke, _refresh_token, creds_refresh. run_m.
  rewrite H1. simpl. rewrite Hc. simpl. rewrite Hr. simpl. rewrite Hm.
  reflexivity.
Qed.

(** When the first attempt reports 401, the refresh
    goes through and the second attempt raises anything but
    [GmailAuthError], that exception leaves the wrapper. *)
Lemma execute_with_retry_second_failure_escapes {A} (api_call : Operation A)
    (s : GmailClient) (c : Credentials) (m1 : string) (e2 : exn)
    (tok : string) (exp : option Z) (v : bool) :
  creds s = Some c ->
  api_call (api_calls s) = Raise (HttpError 401 m1) ->
  token_endpoint w (refresh_calls s) = Granted tok exp v ->
  api_call (S (api_calls s)) = Raise e2 ->
  is_GmailAuthError e2 = false ->
  fst (_execute_with_retry w api_call s) = Raise e2.
Proof.
  intros Hc H1 Hg H2 Hn.
  unfold _execute_with_retry, invoke, _refresh_token, creds_refresh. run_m.
  rewrite H1. simpl. rewrite Hc. simpl. rewrite Hg. simpl. rewrite H2. simpl.
  rewrite Hn. reflexivity.
Qed.

(** The same for the forced refresh: a refusal without the revocation
    marker leaves the wrapper as the exception the library raised. *)
Lemma execute_with_retry_refresh_failure_escapes {A} (api_call : Operation A)
    (s : GmailClient) (c : Credentials) (m1 : string) (e : exn) :
  creds s = Some c ->
  api_call (api_calls s) = Raise (HttpError 401 m1) ->
  token_endpoint w (refresh_calls s) = Refused e ->
  contains "invalid_grant" (str e) = false ->
  is_GmailAuthError e = false ->
  fst (_execute_with_retry w api_call s) = Raise e.
Proof.
  intros Hc H1 Hg Hm Hn.
  unfold _execute_with_retry, invoke, _refresh_token, creds_refresh. run_m.
  rewrite H1. simpl. rewrite Hc. simpl. rewrite Hg. simpl. rewrite Hm. simpl.
  rewrite Hn. reflexivity.
Qed.

(** What a refused refresh raises and what it records.  [_refresh_token]
    turns a refusal that carries the revocation marker into its own
    [GmailAuthError]; it raises every other refusal as it came and records
    nothing.  [_ensure_valid_token], when a refresh is due, raises every
    failure as [GmailAuthError] and records its reason. *)
Lemma refresh_refused (s : GmailClient) (c : Credentials) (e : exn) :
  creds s = Some c ->
  token_endpoint w (refresh_calls s) = Refused e ->
  _refresh_token w s =
  (Raise (if contains "invalid_grant" (str e)
          then GmailAuthError revoked_msg else e),
   count_refresh s).
Proof.
  intros Hc He. unfold _refresh_token, creds_refresh. run_m.
  rewrite Hc. simpl. rewrite He. simpl.
  destruct (contains "invalid_grant" (str e)); reflexivity.
Qed.

Lemma refresh_granted (s : GmailClient) (c : Credentials)
    (tok : string) (exp : option Z) (v : bool) :
  creds s = Some c ->
  token_endpoint w (refresh_calls s) = Granted tok exp v ->
  fst (_refresh_token w s) = Ok tt
  /\ _auth_error (snd (_refresh_token w s)) = None
  /\ creds (snd (_refresh_token w s)) =
     Some (mkCredentials (Some tok) (refresh_token c) (token_uri c)
             (client_id c) (client_secret c) exp v).
Proof.
  intros Hc He. unfold _refresh_token, creds_refresh. run_m.
  rewrite Hc. simpl. rewrite He. simpl. auto.
Qed.

(** C3, as the code has it: a refusal that carries the revocation marker
    makes [_refresh_token] raise the [GmailAuthError] that names the refresh
    token as expired or revoked; any other refusal is raised by
    [_refresh_token] unchanged, and [_refresh_token] records nothing.  When
    the refresh was started by [_ensure_valid_token], every refusal is raised
    as [GmailAuthError] and its reason is stored in [_auth_error].  A stored
    reason survives every later guard call whose refresh request is refused
    (it may be replaced by a newer reason), and a granted refresh clears it. *)
Theorem refresh_failure_reporting (s : GmailClient) (c : Credentials) :
  creds s = Some c ->
  (forall e, token_endpoint w (refresh_calls s) = Refused e ->
     (contains "invalid_grant" (str e) = true ->
      fst (_refresh_token w s) = Raise (GmailAuthError revoked_msg))
     /\ (contains "invalid_grant" (str e) = false ->
         fst (_refresh_token w s) = Raise e)
     /\ _auth_error (snd (_refresh_token w s)) = _auth_error s
     /\ (refresh_due w c = true ->
         fst (_ensure_valid_token w s) = Raise (GmailAuthError (recorded_reason e))
         /\ _auth_error (snd (_ensure_valid_token w s)) = Some (recorded_reason e))
     /\ (is_Some (_auth_error s) ->
         is_Some (_auth_error (snd (_ensure_valid_token w s)))
         /\ forall (A : Type) (api_call : Operation A),
             is_Some (_auth_error (snd (_execute_with_retry w api_call s)))))
  /\ (forall tok exp v,
        token_endpoint w (refresh_calls s) = Granted tok exp v ->
        fst (_refresh_token w s) = Ok tt
        /\ _auth_error (snd (_refresh_token w s)) = None).
Proof.
  intros Hc. split.
  - intros e He. pose proof (refresh_refused s c e Hc He) as Hr.
    split; [|split; [|split; [|split]]].
    + intros Hm. rewrite Hr, Hm. reflexivity.
    + intros Hm. rewrite Hr, Hm. reflexivity.
    + rewrite Hr. reflexivity.
    + intros Hdue. unfold _ensure_valid_token. run_m. rewrite Hc, Hdue, Hr.
      unfold recorded_reason. simpl.
      destruct (contains "invalid_grant" (str e)); simpl; auto.
    + intros Hsome. split.
      * unfold _ensure_valid_token. run_m. rewrite Hc.
        destruct (refresh_due w c); [|exact Hsome].
        rewrite Hr. simpl. eauto.
      * intros A api_call. unfold _execute_with_retry, invoke. run_m.
        destruct (api_call (api_calls s)) as [x|e1]; simpl; [exact Hsome|].
        pose proof (handle_api_error_spec (A:=A) e1 (count_api_call s))
          as (_ & _ & _ & Hkeep). specialize (Hkeep Hsome).
        destruct (is_HttpError e1); [|exact Hkeep].
        destruct (resp_is_None e1); simpl; [exact Hsome|].
        case_bool_decide; [|exact Hkeep].
        rewrite (refresh_refused (count_api_call s) c e Hc He). simpl.
        destruct (contains "invalid_grant" (str e)); simpl.
        -- exact Hsome.
        -- destruct (is_GmailAuthError e); exact Hsome.
  - intros tok exp v Hg.
    destruct (refresh_granted s c tok exp v Hc Hg) as (H1 & H2 & _). auto.
Qed.

End TokenGuard.

(** C2 at work: a credential that is valid for 30 more seconds is
    refreshed, with one request. *)
Lemma ensure_valid_token_refresh_policy_witness :
  Client.creds (Scenario.client_with Scenario.expiring_soon)
  = Some Scenario.expiring_soon
  /\ Client.refresh_calls
       (snd (Client._ensure_valid_token (Scenario.world_with Scenario.granting)
               (Scenario.client_with Scenario.expiring_soon))) = 1%nat.
Proof.
  split; [reflexivity|].
  apply (ensure_valid_token_refresh_policy
           (Scenario.world_with Scenario.granting)
           (Scenario.client_with Scenario.expiring_soon)
           Scenario.expiring_soon eq_refl).
  right. left. exists (Scenario.now0 + Client.microseconds 30)%Z.
  split; [reflexivity|]. vm_compute. reflexivity.
Defined.

(** C1 at the failing input: the operation answers 401 twice and the
    refresh in between is granted.  The wrapper has invoked the operation
    twice and refreshed once, and the second [HttpError] leaves it instead
    of being turned into [None]. *)
Theorem execute_with_retry_second_401_raises :
  let r := Client._execute_with_retry (Scenario.world_with Scenario.granting)
             Scenario.always_401 (Scenario.client_with Scenario.fresh) in
  fst r = Raise (HttpError 401 "Unauthorized")
  /\ Client.api_calls (snd r) = 2%nat
  /\ Client.refresh_calls (snd r) = 1%nat.
Proof. vm_compute. auto. Qed.

(** The forced refresh times out: the library's exception leaves the
    wrapper as well. *)
Example execute_with_retry_refresh_timeout_raises :
  fst (Client._execute_with_retry (Scenario.world_with Scenario.timing_out)
         Scenario.always_401 (Scenario.client_with Scenario.fresh))
  = Raise (Exception "Connection timed out" None).
Proof. reflexivity. Qed.

(** The public methods catch [GmailAuthError] only, so the exception
    reaches their caller. *)
Example get_profile_second_401_raises :
  fst (Client.get_profile (Scenario.world_with Scenario.granting)
         Scenario.always_401 (Scenario.client_with Scenario.fresh))
  = Raise (HttpError 401 "Unauthorized").
Proof. reflexivity. Qed.

(** The retry at work: one 401, a granted refresh, the second attempt
    returns. *)
Example execute_with_retry_recovers :
  fst (Client._execute_with_retry (Scenario.world_with Scenario.granting)
         Scenario.once_401 (Scenario.client_with Scenario.fresh))
  = Ok (Some "profile").
Proof. reflexivity. Qed.

(** A revoked refresh token gives [None]. *)
Example execute_with_retry_revoked :
  fst (Client._execute_with_retry (Scenario.world_with Scenario.revoking)
         Scenario.always_401 (Scenario.client_with Scenario.fresh))
  = Ok None.
Proof. reflexivity. Qed.

(** C3 as stated fails at a refresh that times out: [_refresh_token] raises
    the library's exception, not a [GmailAuthError], and no reason is
    recorded. *)
Lemma refresh_token_timeout_not_wrapped :
  let r := Client._refresh_token (Scenario.world_with Scenario.timing_out)
             (Scenario.client_with Scenario.fresh) in
  fst r = Raise (Exception "Connection timed out" None)
  /\ is_GmailAuthError (Exception "Connection timed out" None) = false
  /\ Client._auth_error (snd r) = None.
Proof. vm_compute. auto. Qed.

(** C3 at work: the credential expires in 30 seconds and the endpoint
    reports the refresh token as revoked. *)
Lemma refresh_failure_reporting_witness :
  Client.creds (Scenario.client_with Scenario.expiring_soon)
  = Some Scenario.expiring_soon
  /\ fst (Client._ensure_valid_token (Scenario.world_with Scenario.revoking)
            (Scenario.client_with Scenario.expiring_soon))
     = Raise (GmailAuthError
                ("Token refresh failed: " ++ Client.revoked_msg)).
Proof.
  split; [reflexivity|].
  destruct (refresh_failure_reporting (Scenario.world_with Scenario.revoking)
              (Scenario.client_with Scenario.expiring_soon)
              Scenario.expiring_soon eq_refl) as [Hrefused _].
  destruct (Hrefused _ eq_refl) as (_ & _ & _ & Hguard & _).
  destruct (Hguard eq_refl) as [Hraise _]. exact Hraise.
Defined.

(** ** The secrets file *)

(** The variable that decides: the first one when it is set and not empty,
    the second one otherwise. *)
Lemma or_else_first (a b : option string) :
  truthy a = true -> or_else a b = a.
Proof. intros H. unfold or_else. rewrite H. reflexivity. Qed.





(** ** The process and the environment probe *)

Section Process.

Import Yubikey.
#[local] Open Scope Z_scope.

Variable w : World.

(** One run of an executable: its outcome and its entry in the log. *)
Lemma subprocess_run_eq (check : bool) (argv : list string) (input : string)
    (p : Proc) :
  subprocess_run w check argv input p =
  (match exec w (fs p) argv input with
   | NotFound =>
       Raise (FileNotFoundError
                ("No such file or directory: " ++ hd EmptyString argv))
   | Exited rc out err =>
       if check && negb (rc =? 0) then Raise (CalledProcessError rc out err)
       else Ok (mkCompleted rc out err)
   end,
   log (Spawn argv) p).
Proof.
  unfold subprocess_run. run_m.
  destruct (exec w (fs p) argv input) as [|rc out err]; [reflexivity|].
  destruct (check && negb (rc =? 0)); reflexivity.
Qed.

(** [is_wsl2] always returns; its value is the disjunction of the three
    signals, it leaves the files alone, and it stops probing at the first
    signal that matches. *)
Lemma is_wsl2_run (p : Proc) :
  is_wsl2 w p =
  (Ok (compatibility_layer w (fs p)),
   mkProc (fs p) (trace p ++ wsl_effects w (fs p))%list).
Proof.
  unfold is_wsl2, read_text, getenv, subprocess_run, compatibility_layer,
    wsl_effects, signal_version, signal_release, signal_variable.
  run_m. unfold log. simpl.
  destruct (fs p !! "/proc/version") as [file|]; simpl;
    [destruct (readable file); simpl;
     [destruct (contains "microsoft" (lower (content file))); simpl|]|];
    try (destruct (exec w (fs p) ["uname"; "-r"] "") as [|rc out err]; simpl;
         [|destruct (contains "microsoft" (lower out)); simpl]);
    try destruct (truthy (environ w !! "WSL_DISTRO_NAME")); simpl;
    rewrite <- ?app_assoc; reflexivity.
Qed.

(** The effects a call added, when the log after it is the log before it
    followed by [t]. *)
Lemma since_app (p : Proc) (f : FS) (t : list effect) :
  since p (mkProc f (trace p ++ t)%list) = t.
Proof. unfold since. simpl. apply drop_app_length. Qed.


(** [version_probe] always returns: its value tells whether some command
    of the list answers its version query, and it stops at the first that
    does. *)
Lemma version_probe_run (commands : list string) (p : Proc) :
  version_probe w commands p =
  (Ok (existsb (probe_ok w (fs p)) commands),
   mkProc (fs p) (trace p ++ probe_effects w (fs p) commands)%list).
Proof.
  revert p. induction commands as [|cmd rest IH]; intros p.
  - destruct p as [f t]. simpl. unfold ret. rewrite app_nil_r. reflexivity.
  - simpl. unfold probe_ok at 1 3. unfold subprocess_run. run_m.
    destruct (exec w (fs p) [cmd; "--version"] "") as [|rc out err]; simpl.
    + rewrite IH. simpl. rewrite <- app_assoc. reflexivity.
    + destruct (rc =? 0); simpl.
      * reflexivity.
      * rewrite IH. simpl. rewrite <- app_assoc. reflexivity.
Qed.

(** A computation of the process, run inside a manager. *)
Lemma lift_eq {A} (m : M Proc A) (s : State) :
  lift m s = (fst (m (proc s)), mkState (self s) (snd (m (proc s)))).
Proof. unfold lift. destruct (m (proc s)); reflexivity. Qed.

End Process.

Arguments Yubikey.is_wsl2 : simpl never.
Arguments Yubikey.version_probe : simpl never.
Arguments subprocess_run : simpl never.
Arguments Yubikey.lift : simpl never.

(** Replace the runs of the probes by their outcomes. *)
Ltac run_proc :=
  repeat (first [ rewrite lift_eq | rewrite is_wsl2_run
                | rewrite version_probe_run | rewrite subprocess_run_eq ];
          simpl).

(** Split on every test that is left in the goal. *)
Ltac split_tests :=
  repeat match goal with
         | |- context [exec ?w ?f ?a ?i] =>
             destruct (exec w f a i) as [|? ? ?] eqn:?; simpl
         | |- context [if ?c then _ else _] => destruct c eqn:?; simpl
         | |- context [List.find ?f ?l] => destruct (List.find f l) eqn:?; simpl
         end.

Ltac crunch := repeat (progress (run_m; run_proc; split_tests)).

(** ** Device presence *)

Section Presence.

Import Yubikey.
#[local] Open Scope Z_scope.

(** A verdict that is returned has been stored in the memo field. *)
Lemma check_yubikey_present_stores (w : World) (s s1 : State) (b : bool) :
  _check_yubikey_present w s = (Ok b, s1) ->
  _yubikey_present (self s1) = Some b.
Proof.
  unfold _check_yubikey_present, _check_ykman_installed,
    _check_yubikey_present_wsl2, _check_age_plugin_installed.
  run_m. destruct (_yubikey_present (self s)) as [b0|] eqn:Hmemo; simpl.
  - intros [= <- <-]. exact Hmemo.
  - destruct (_ykman_available (self s)) as [[|]|]; simpl; crunch;
      try (intros [= <- <-]; reflexivity); try discriminate.
Qed.

(** A stored verdict is returned as it is, and nothing is probed. *)
Lemma check_yubikey_present_cached (w : World) (s : State) (b : bool) :
  _yubikey_present (self s) = Some b ->
  _check_yubikey_present w s = (Ok b, s).
Proof.
  intros Hmemo. unfold _check_yubikey_present. run_m. rewrite Hmemo.
  reflexivity.
Qed.

(** C6, as the code has it: the verdict of [_check_yubikey_present] is
    memoized in every case, also after a failure of the native probe for
    want of a smart-card transport inside the compatibility layer.  Once a
    call has returned [b], every later call returns [b] and probes nothing,
    whatever the machine has become in between. *)
Theorem check_yubikey_present_memoized (w1 w2 : World) (s s1 : State) (b : bool) :
  _check_yubikey_present w1 s = (Ok b, s1) ->
  _check_yubikey_present w2 s1 = (Ok b, s1).
Proof.
  intros Hfirst. apply check_yubikey_present_cached.
  exact (check_yubikey_present_stores w1 s s1 b Hfirst).
Qed.


End Presence.


(** The other end of the ladder: without any build of the plugin the same
    manager reports the device absent, and stores that verdict. *)
Example check_yubikey_present_bare :
  let r := Yubikey._check_yubikey_present Scenario.wsl_bare
             Scenario.new_manager in
  fst r = Ok false
  /\ Yubikey._yubikey_present (Yubikey.self (snd r)) = Some false.
Proof. vm_compute. auto. Qed.

(** C6 as stated fails on the WSL2 machine: the first call sees [ykman]
    fail for want of a smart-card transport and finds no plugin; the Windows
    build is then installed; the second call still answers [False], from the
    memo field and without a single probe, where a new manager on the same
    machine answers [True]. *)
Lemma check_yubikey_present_not_rerun :
  let first := Yubikey._check_yubikey_present Scenario.wsl_bare
                 Scenario.new_manager in
  let second := Yubikey._check_yubikey_present Scenario.wsl_with_exe
                  (snd first) in
  fst first = Ok false
  /\ fst second = Ok false
  /\ since (Yubikey.proc (snd first)) (Yubikey.proc (snd second)) = []
  /\ fst (Yubikey._check_yubikey_present Scenario.wsl_with_exe
            Scenario.new_manager) = Ok true.
Proof. vm_compute. auto. Qed.

(** C6 at work, on the same two calls. *)
Lemma check_yubikey_present_memoized_witness :
  let first := Yubikey._check_yubikey_present Scenario.wsl_bare
                 Scenario.new_manager in
  first = (Ok false, snd first)
  /\ Yubikey._check_yubikey_present Scenario.wsl_with_exe (snd first)
     = (Ok false, snd first).
Proof.
  split; [reflexivity|].
  apply (check_yubikey_present_memoized Scenario.wsl_bare
           Scenario.wsl_with_exe Scenario.new_manager).
  reflexivity.
Defined.

(** ** The two builds of the plugin *)

Section Lookup.

Import Yubikey.
#[local] Open Scope Z_scope.

Lemma plugin_runs_app (a b : list effect) :
  plugin_runs (a ++ b)%list = (plugin_runs a ++ plugin_runs b)%list.
Proof.
  unfold plugin_runs, spawned. rewrite omap_app. apply List.filter_app.
Qed.

(** The environment probe runs no plugin. *)
Lemma plugin_runs_wsl_effects (w : World) (f : FS) :
  plugin_runs (wsl_effects w f) = [].
Proof.
  unfold wsl_effects.
  destruct (signal_version f), (signal_release w f); reflexivity.
Qed.

(** Bring the plugin runs of an explicit log into the open. *)
Ltac read_runs :=
  unfold log; simpl; rewrite <- ?app_assoc; rewrite since_app;
  rewrite ?plugin_runs_app, ?plugin_runs_wsl_effects; simpl.

(** C7, as the code has it: in the recipient lookup and in the identity
    lookup the build of the plugin that matches the detected environment is
    run first.  The other build is run when the first is not found on the
    search path and, inside the compatibility layer, also when the first
    runs and exits with a non-zero status.  Outside the compatibility layer
    a non-zero status of the first build makes the lookup raise
    [YubiKeyError] without running the other build. *)
Theorem plugin_lookup_order (w : World) (s : State) :
  let slot := yubikey_slot (config (self s)) in
  tried_in_order w s "recipient" ["--list"; "--slot"; slot]
    (_get_yubikey_recipient w s)
  /\ tried_in_order w s "identity" ["--identity"; "--slot"; slot]
       (_get_yubikey_identity w s).
Proof.
  split.
  - unfold tried_in_order, _get_yubikey_recipient, after_loop,
      parse_recipient. run_m.
    run_proc.
    destruct (compatibility_layer w (fs (proc s))) eqn:Hwsl; simpl;
      crunch; try congruence; read_runs; auto.
  - unfold tried_in_order, _get_yubikey_identity, after_loop. run_m.
    run_proc.
    destruct (compatibility_layer w (fs (proc s))) eqn:Hwsl; simpl;
      crunch; try congruence; read_runs; auto.
Qed.

End Lookup.

(** C7 as stated fails inside the compatibility layer: the Windows build is
    found, runs and exits with status 1, and the lookup does not raise; it
    runs the Linux build next and returns the recipient that build lists. *)
Lemma recipient_lookup_falls_back :
  let r := Yubikey._get_yubikey_recipient Scenario.wsl_exe_failing
             Scenario.new_manager in
  Yubikey.compatibility_layer Scenario.wsl_exe_failing ∅ = true
  /\ exec Scenario.wsl_exe_failing ∅
       [Yubikey.plugin_exe; "--list"; "--slot"; "1"] ""
     = Exited 1 "" "Error: Failed to connect to the YubiKey"
  /\ fst r = Ok "age1yubikey1qwerty"
  /\ Yubikey.plugin_runs
       (since (Yubikey.proc Scenario.new_manager)
          (Yubikey.proc (snd r)))
     = [ [Yubikey.plugin_exe; "--list"; "--slot"; "1"];
         [Yubikey.plugin; "--list"; "--slot"; "1"] ].
Proof. vm_compute. auto. Qed.

(** Outside the compatibility layer the same failure of the first build
    ends the lookup: the other build, which would answer, is not run. *)
Example recipient_lookup_native_raises :
  let r := Yubikey._get_yubikey_recipient Scenario.native_failing
             Scenario.new_manager in
  fst r = Raise (YubiKeyError
                   "Failed to get recipient with age-plugin-yubikey: Error: Failed to connect to the YubiKey")
  /\ Yubikey.plugin_runs
       (since (Yubikey.proc Scenario.new_manager)
          (Yubikey.proc (snd r)))
     = [ [Yubikey.plugin; "--list"; "--slot"; "1"] ].
Proof. vm_compute. auto. Qed.

(** ** The transient identity file *)

Section Unwrap.

Import Yubikey.
#[local] Open Scope Z_scope.

Variable w : World.

Lemma grows_refl (P : effect -> Prop) (p : Proc) : grows P p p.
Proof.
  split; [reflexivity|]. exists []. rewrite app_nil_r. split; [reflexivity|].
  apply List.Forall_nil.
Qed.

Lemma grows_trans (P : effect -> Prop) (p1 p2 p3 : Proc) :
  grows P p1 p2 -> grows P p2 p3 -> grows P p1 p3.
Proof.
  intros [Hf1 (t1 & Ht1 & HP1)] [Hf2 (t2 & Ht2 & HP2)]. split.
  - congruence.
  - exists (t1 ++ t2)%list. split.
    + rewrite Ht2, Ht1, app_assoc. reflexivity.
    + apply List.Forall_app. auto.
Qed.

Lemma grows_log (P : effect -> Prop) (p : Proc) (e : effect) :
  P e -> grows P p (log e p).
Proof.
  intros He. split; [reflexivity|]. exists [e]. split; [reflexivity|].
  apply List.Forall_cons; [exact He|apply List.Forall_nil].
Qed.

Lemma grows_effects (P : effect -> Prop) (p : Proc) (t : list effect) :
  List.Forall P t -> grows P p (mkProc (fs p) (trace p ++ t)%list).
Proof. intros Ht. split; [reflexivity|]. exists t. auto. Qed.



(** A lookup leaves the files alone; its effects are those of the
    environment probe and runs of the listed commands with [args]. *)
Lemma lookup_loop_grows (P : effect -> Prop) (what : string)
    (args : list string) (parse : string -> string -> result string)
    (commands : list string) :
  (forall f, List.Forall P (wsl_effects w f)) ->
  (forall cmd, P (Spawn (cmd :: args))) ->
  forall (last_error : option exn) (p : Proc),
    grows P p (snd (lookup_loop w what args parse commands last_error p)).
Proof.
  intros Hwsl Hcmd.
  induction commands as [|cmd rest IH]; intros last_error p; simpl.
  - unfold after_loop. destruct last_error as [e|]; run_m.
    + rewrite is_wsl2_run. simpl.
      destruct (compatibility_layer w (fs p)); simpl;
        apply grows_effects, Hwsl.
    + apply grows_refl.
  - run_m. rewrite subprocess_run_eq.
    assert (grows P p (log (Spawn (cmd :: args)) p)) as Hlog
      by (apply grows_log, Hcmd).
    assert (forall q, grows P p q ->
                      grows P p (mkProc (fs q)
                                   (trace q ++ wsl_effects w (fs q))%list))
      as Hprobe
      by (intros q Hq; eapply grows_trans;
          [exact Hq|apply grows_effects, Hwsl]).
    assert (forall e q, grows P p q ->
              grows P p
                (snd (match e with
                      | FileNotFoundError _ =>
                          lookup_loop w what args parse rest last_error
                      | CalledProcessError _ _ err =>
                          fun s0 =>
                            let (r, s') := is_wsl2 w s0 in
                            match r with
                            | Ok a =>
                                (if a
                                 then lookup_loop w what args parse rest (Some e)
                                 else fun s1 =>
                                   (Raise (YubiKeyError
                                       ("Failed to get " ++ what ++ " with "
                                        ++ cmd ++ ": " ++ err)), s1)) s'
                            | Raise e0 => (Raise e0, s')
                            end
                      | _ => fun s0 => (Raise e, s0)
                      end q))) as Hhandler.
    { intros e q Hq.
      destruct e; simpl; try exact Hq.
      - eapply grows_trans; [exact Hq|apply IH].
      - rewrite is_wsl2_run. simpl.
        destruct (compatibility_layer w (fs q)); simpl.
        + eapply grows_trans; [apply Hprobe, Hq|apply IH].
        + apply Hprobe, Hq. }
    destruct (exec w (fs p) (cmd :: args) "") as [|rc out err]; simpl.
    + eapply grows_trans; [exact Hlog|apply IH].
    + destruct (negb (rc =? 0)); simpl.
      * apply (Hhandler (CalledProcessError rc out err) _ Hlog).
      * destruct (parse cmd out) as [v|e]; simpl; [exact Hlog|].
        apply (Hhandler e _ Hlog).
Qed.






End Unwrap.


(** While the tool runs, the file is there: it is the statement around the
    run that removes it. *)
Example named_temporary_file_writes :
  let r := Yubikey.named_temporary_file Scenario.decrypt_failing
             "AGE-PLUGIN-YUBIKEY-1QQQQ" (mkProc ∅ []) in
  fst r = Ok "/tmp/tmpk3v9x1qz.age"
  /\ fs (snd r) !! "/tmp/tmpk3v9x1qz.age"
     = Some (mkFile "AGE-PLUGIN-YUBIKEY-1QQQQ" 384).
Proof. vm_compute. auto. Qed.

(** ** Key generation *)

Section KeyGeneration.

Import Crypto.
#[local] Open Scope Z_scope.

Variable w : World.

Lemma length_append (a b : string) :
  String.length (a ++ b) = (String.length a + String.length b)%nat.
Proof. induction a as [|c a IH]; simpl; [reflexivity|]. rewrite IH. reflexivity. Qed.

(** The public-key file is another file than the private-key file. *)
Lemma key_pub_file_ne (self : VaultCrypto) : key_pub_file self <> key_file self.
Proof.
  unfold key_pub_file. intros H. apply (f_equal String.length) in H.
  rewrite length_append in H. simpl in H. lia.
Qed.


End KeyGeneration.


(** * Further properties of the token guard *)

Section GuardBehaviour.

Import Client.
#[local] Open Scope Z_scope.

Variable w : Client.World.

(** X1: one call of the retry wrapper invokes the operation at most twice
    and sends at most one refresh request, whatever the operation and the
    endpoint answer; and it invokes the operation a second time only after
    a first attempt that raised [HttpError] with status 401 and a forced
    refresh that went through. *)
Theorem execute_with_retry_call_budget {A} (api_call : Operation A)
    (s : GmailClient) :
  let r := _execute_with_retry w api_call s in
  (api_calls (snd r) <= api_calls s + 2)%nat
  /\ (refresh_calls (snd r) <= refresh_calls s + 1)%nat
  /\ (api_calls (snd r) = S (S (api_calls s)) <->
      (exists m, api_call (api_calls s) = Raise (HttpError 401 m))
      /\ fst (_refresh_token w (count_api_call s)) = Ok tt).
Proof.
  simpl. destruct (execute_with_retry_bounded w api_call s) as [Ha Hr].
  split; [exact Ha|]. split; [exact Hr|].
  unfold _execute_with_retry, invoke. run_m.
  destruct (api_call (api_calls s)) as [x|e]; simpl.
  - split; [lia|]. intros [[m [=]] _].
  - pose proof (handle_api_error_spec (A:=A) e (count_api_call s))
      as (_ & _ & Hsame & _). simpl in Hsame.
    destruct (is_HttpError e) eqn:Hhttp.
    + destruct (resp_is_None e) eqn:Hnone; simpl;
        [split; [lia|]; intros [[m [= ->]] _]; discriminate|].
      case_bool_decide as H401.
      * assert (exists m, e = HttpError 401 m) as [m ->]
          by (destruct e; try discriminate; simpl in H401;
              injection H401 as ->; eauto).
        pose proof (refresh_token_api_calls w (count_api_call s)) as Hsame'.
        destruct (_refresh_token w (count_api_call s)) as [[[]|e1] s1];
          simpl in *.
        -- destruct (api_call (api_calls s1)) as [x|e2]; simpl.
           ++ split; [eauto|]. intros _. rewrite Hsame'. reflexivity.
           ++ destruct (is_GmailAuthError e2); simpl;
                (split; [eauto|]; intros _; rewrite Hsame'; reflexivity).
        -- destruct (is_GmailAuthError e1); simpl; rewrite Hsame';
             (split; [lia|]; intros [_ [=]]).
      * rewrite Hsame. split; [lia|]. intros [[m [= ->]] _].
        simpl in H401. congruence.
    + rewrite Hsame. split; [lia|]. intros [[m [= ->]] _]. discriminate.
Qed.


(** X3: the retry at work.  The first attempt reports 401, the refresh is
    granted and the second attempt returns [x]: the caller gets [x], the
    credential carries the new token and expiry, no failure reason is left,
    and the call cost two invocations and one refresh request. *)
Theorem execute_with_retry_recovers_after_refresh {A}
    (api_call : Operation A) (s : GmailClient) (c : Credentials)
    (m1 : string) (tok : string) (exp : option Z) (v : bool) (x : A) :
  creds s = Some c ->
  api_call (api_calls s) = Raise (HttpError 401 m1) ->
  token_endpoint w (refresh_calls s) = Granted tok exp v ->
  api_call (S (api_calls s)) = Ok x ->
  let r := _execute_with_retry w api_call s in
  fst r = Ok (Some x)
  /\ creds (snd r)
     = Some (mkCredentials (Some tok) (refresh_token c) (token_uri c)
               (client_id c) (client_secret c) exp v)
  /\ _auth_error (snd r) = None
  /\ api_calls (snd r) = S (S (api_calls s))
  /\ refresh_calls (snd r) = S (refresh_calls s).
Proof.
  intros Hc H1 Hg H2. simpl.
  unfold _execute_with_retry, invoke, _refresh_token, creds_refresh. run_m.
  rewrite H1. simpl. rewrite Hc. simpl. rewrite Hg. simpl. rewrite H2. simpl.
  auto.
Qed.

(** What [_refresh_token] raises is a [GmailAuthError] or what the library
    raised. *)
Lemma refresh_token_raises (s : GmailClient) (e : exn) :
  fst (_refresh_token w s) = Raise e ->
  is_GmailAuthError e = true
  \/ token_endpoint w (refresh_calls s) = Refused e.
Proof.
  unfold _refresh_token, creds_refresh. run_m.
  destruct (creds s) as [c|]; simpl.
  - destruct (token_endpoint w (refresh_calls s)) as [tok exp v|e0]; simpl;
      [discriminate|].
    destruct (contains "invalid_grant" (str e0)); simpl; intros [= <-]; auto.
  - intros [= <-]. auto.
Qed.

(** X4: the freshness check raises nothing but [GmailAuthError]: whatever
    the library raises during a due refresh reaches the caller wrapped, and
    the same text is left in [_auth_error]. *)
Theorem ensure_valid_token_raises_auth_error_only (s : GmailClient) (e : exn) :
  fst (_ensure_valid_token w s) = Raise e ->
  exists reason, e = GmailAuthError reason
                 /\ _auth_error (snd (_ensure_valid_token w s)) = Some reason.
Proof.
  unfold _ensure_valid_token. run_m.
  destruct (creds s) as [c|]; simpl.
  - destruct (refresh_due w c); simpl; [|discriminate].
    destruct (_refresh_token w s) as [[u|e0] s1]; simpl; [discriminate|].
    intros [= <-]. eauto.
  - destruct (_auth_error s) as [reason|] eqn:Hr; simpl; [|discriminate].
    destruct (negb (String.eqb reason EmptyString)); simpl; [|discriminate].
    intros [= <-]. eauto.
Qed.

(** X5: when the refresh that the freshness check starts is refused, a
    public method returns [None] without invoking the remote operation at
    all, and leaves the reason in [_auth_error]. *)
Theorem get_profile_stale_not_invoked {A} (execute : Operation A)
    (s : GmailClient) (c : Credentials) (e : exn) :
  creds s = Some c ->
  refresh_due w c = true ->
  token_endpoint w (refresh_calls s) = Refused e ->
  let r := get_profile w execute s in
  fst r = Ok None
  /\ api_calls (snd r) = api_calls s
  /\ refresh_calls (snd r) = S (refresh_calls s)
  /\ _auth_error (snd r) = Some (recorded_reason e).
Proof.
  intros Hc Hdue He. simpl.
  unfold get_profile, _ensure_valid_token. run_m. rewrite Hc, Hdue.
  rewrite (refresh_refused w s c e Hc He). unfold recorded_reason. simpl.
  destruct (contains "invalid_grant" (str e)); simpl; auto.
Qed.

(** X6: one call of a public method sends at most two refresh requests
    (one by the freshness check, one forced by a 401) and invokes the remote
    operation at most twice. *)
Theorem get_profile_bounded {A} (execute : Operation A) (s : GmailClient) :
  let r := get_profile w execute s in
  (refresh_calls (snd r) <= refresh_calls s + 2)%nat
  /\ (api_calls (snd r) <= api_calls s + 2)%nat.
Proof.
  simpl. unfold get_profile. run_m.
  assert ((refresh_calls (snd (_ensure_valid_token w s))
           <= refresh_calls s + 1)%nat
          /\ api_calls (snd (_ensure_valid_token w s)) = api_calls s) as He.
  { unfold _ensure_valid_token. run_m.
    destruct (creds s) as [c|] eqn:Hc; simpl.
    - destruct (refresh_due w c); simpl; [|lia].
      pose proof (refresh_token_calls_le w s) as Hle.
      pose proof (refresh_token_api_calls w s) as Hsame.
      destruct (_refresh_token w s) as [[u|e0] s1]; simpl in *; lia.
    - destruct (truthy (_auth_error s)); simpl; lia. }
  destruct (_ensure_valid_token w s) as [[u|e] s1]; simpl in *.
  - pose proof (execute_with_retry_bounded w execute s1) as [Ha Hr].
    destruct (_execute_with_retry w execute s1) as [[x|e] s2]; simpl in *.
    + lia.
    + destruct (is_GmailAuthError e); simpl; lia.
  - destruct (is_GmailAuthError e); simpl; lia.
Qed.


End GuardBehaviour.


(** X3 at work. *)
Lemma execute_with_retry_recovers_after_refresh_witness :
  fst (Client._execute_with_retry (Scenario.world_with Scenario.granting)
         Scenario.once_401 (Scenario.client_with Scenario.fresh))
  = Ok (Some "profile").
Proof.
  exact (proj1 (execute_with_retry_recovers_after_refresh
                  (Scenario.world_with Scenario.granting) Scenario.once_401
                  (Scenario.client_with Scenario.fresh) Scenario.fresh
                  "Unauthorized" "ya29.new"
                  (Some (Scenario.now0 + Client.microseconds 3600)%Z) true
                  "profile" eq_refl eq_refl eq_refl eq_refl)).
Defined.

(** X4 at work: a client without credentials surfaces the stored reason. *)
Lemma ensure_valid_token_raises_auth_error_only_witness :
  exists reason,
    GmailAuthError "Token refresh failed: Connection timed out"
    = GmailAuthError reason
    /\ Client._auth_error
         (snd (Client._ensure_valid_token
                 (Scenario.world_with Scenario.granting)
                 GuardCases.failed_client)) = Some reason.
Proof.
  exact (ensure_valid_token_raises_auth_error_only
           (Scenario.world_with Scenario.granting) GuardCases.failed_client
           _ eq_refl).
Defined.

(** X5 at work: the token expires in 30 seconds and the endpoint times
    out. *)
Lemma get_profile_stale_not_invoked_witness :
  let r := Client.get_profile (Scenario.world_with Scenario.timing_out)
             Scenario.once_401
             (Scenario.client_with Scenario.expiring_soon) in
  fst r = Ok None /\ Client.api_calls (snd r) = 0%nat.
Proof.
  destruct (get_profile_stale_not_invoked
              (Scenario.world_with Scenario.timing_out) Scenario.once_401
              (Scenario.client_with Scenario.expiring_soon)
              Scenario.expiring_soon (Exception "Connection timed out" None)
              eq_refl eq_refl eq_refl) as (H1 & H2 & _).
  auto.
Defined.

(** * Further properties of the YubiKey manager *)

Section ManagerBehaviour.

Import Yubikey YubikeyOps.
#[local] Open Scope Z_scope.

Variable w : World.

(** X8: with the YubiKey switched off in the configuration, nothing is
    probed, read or started, whatever the memo fields hold:
    [is_available], [verify_pin] and [change_pin] answer [False],
    [get_slot_info] and [export_public_key] raise [YubiKeyError], and the
    manager and the process are as before. *)
Theorem disabled_gate (s : State) (pin old_pin new_pin : string)
    (slot : option string) :
  yubikey_enabled (config (self s)) = false ->
  is_available w s = (Ok false, s)
  /\ verify_pin w pin s = (Ok false, s)
  /\ change_pin w old_pin new_pin s = (Ok false, s)
  /\ get_slot_info w s = (Raise (YubiKeyError not_available_msg), s)
  /\ export_public_key w slot s = (Raise (YubiKeyError not_available_msg), s).
Proof.
  intros Hoff.
  unfold verify_pin, change_pin, get_slot_info, export_public_key,
    is_available.
  run_m. rewrite Hoff. simpl. auto.
Qed.

(** What [_check_ykman_installed] returns and keeps. *)
Lemma check_ykman_installed_run (s : State) :
  let r := _check_ykman_installed w s in
  fst r = Ok (ykman_installed w s)
  /\ fs (proc (snd r)) = fs (proc s)
  /\ config (self (snd r)) = config (self s)
  /\ _yubikey_present (self (snd r)) = _yubikey_present (self s)
  /\ _ykman_available (self (snd r)) = Some (ykman_installed w s)
  /\ plugin_runs (since (proc s) (proc (snd r))) = [].
Proof.
  simpl. unfold _check_ykman_installed, ykman_installed, probe_ok. run_m.
  destruct (_ykman_available (self s)) as [b|] eqn:Hmemo; simpl.
  - unfold since. rewrite drop_all. auto 6.
  - run_proc.
    destruct (exec w (fs (proc s)) ["ykman"; "--version"] "")
      as [|rc out err]; simpl;
      [|destruct (rc =? 0); simpl];
      unfold since, log; simpl; rewrite drop_app_length; auto 6.
Qed.

(** X9: the installation check of [ykman] is memoized: after one call,
    every later call on that manager returns the same answer and starts
    nothing, whatever has been installed or removed in between. *)
Theorem check_ykman_installed_memoized (w2 : World) (s : State) :
  let first := _check_ykman_installed w s in
  _check_ykman_installed w2 (snd first) = (fst first, snd first).
Proof.
  simpl. destruct (check_ykman_installed_run s) as (Hr & _ & _ & _ & Hm & _).
  unfold _check_ykman_installed at 1. run_m. rewrite Hm, Hr. reflexivity.
Qed.

(** Bring the plugin runs of an explicit log into the open. *)
Ltac read_plugin_runs :=
  unfold log; simpl; rewrite <- ?app_assoc; rewrite ?since_app;
  rewrite ?plugin_runs_app, ?plugin_runs_wsl_effects; simpl.

(** X10: outside the compatibility layer the detection relies on [ykman]
    alone: no build of the plugin is started, and the device is reported
    present exactly when [ykman] is installed and [ykman info] exits with
    status 0. *)
Theorem check_yubikey_present_native (s : State) :
  _yubikey_present (self s) = None ->
  compatibility_layer w (fs (proc s)) = false ->
  let r := _check_yubikey_present w s in
  plugin_runs (since (proc s) (proc (snd r))) = []
  /\ (fst r = Ok true <->
      ykman_installed w s = true
      /\ exists out err,
           exec w (fs (proc s)) ["ykman"; "info"] "" = Exited 0 out err).
Proof.
  intros Hmemo Hnative. simpl.
  unfold _check_yubikey_present, _check_ykman_installed,
    _check_yubikey_present_wsl2, _check_age_plugin_installed,
    ykman_installed, probe_ok.
  run_m. rewrite Hmemo. simpl.
  destruct (_ykman_available (self s)) as [[|]|]; simpl;
    repeat (progress (run_proc; rewrite ?Hnative; simpl));
    try (destruct (exec w (fs (proc s)) ["ykman"; "--version"] "")
           as [|rc0 out0 err0]; simpl;
         [|destruct (Z.eqb_spec rc0 0) as [->|Hrc0]; simpl]);
    repeat (progress (run_proc; rewrite ?Hnative; simpl));
    try (destruct (exec w (fs (proc s)) ["ykman"; "info"] "")
           as [|rc out err]; simpl;
         [|destruct (Z.eqb_spec rc 0) as [->|Hrc]; simpl]);
    repeat (progress (run_proc; rewrite ?Hnative; simpl));
    read_plugin_runs;
    (split; [reflexivity|]);
    (split;
     [first [ solve [intros [=]]
            | intros _; split; [reflexivity|eauto] ]
     |first [ solve [intros _; reflexivity]
            | solve [intros [[=] _]]
            | solve [intros [_ (o & e0 & Heq)]; congruence] ]]).
Qed.

(** The availability check keeps the files, the configuration and what
    is known about [ykman]. *)
Lemma check_yubikey_present_memo (s : State) :
  let r := _check_yubikey_present w s in
  fs (proc (snd r)) = fs (proc s)
  /\ config (self (snd r)) = config (self s)
  /\ (_ykman_available (self (snd r)) = _ykman_available (self s)
      \/ _ykman_available (self (snd r)) = Some (ykman_installed w s)).
Proof.
  simpl.
  unfold _check_yubikey_present, _check_ykman_installed,
    _check_yubikey_present_wsl2, _check_age_plugin_installed,
    ykman_installed, probe_ok.
  run_m.
  destruct (_yubikey_present (self s)) as [b|]; simpl; [auto|].
  destruct (_ykman_available (self s)) as [[|]|] eqn:Hyk; simpl; crunch;
    rewrite ?Hyk; simpl;
    repeat match goal with
           | H : negb (?x =? 0) = _ |- _ =>
               destruct (x =? 0); simpl in H; try discriminate H; clear H
           end;
    auto.
Qed.

Lemma check_yubikey_present_frame (s : State) :
  let r := _check_yubikey_present w s in
  fs (proc (snd r)) = fs (proc s)
  /\ config (self (snd r)) = config (self s)
  /\ ykman_installed w (snd r) = ykman_installed w s.
Proof.
  simpl. destruct (check_yubikey_present_memo s) as (Hfs & Hc & Hm).
  split; [exact Hfs|]. split; [exact Hc|].
  unfold ykman_installed at 1. rewrite Hfs.
  destruct Hm as [-> | ->]; reflexivity.
Qed.

Lemma is_available_frame (s : State) :
  let r := is_available w s in
  fs (proc (snd r)) = fs (proc s)
  /\ config (self (snd r)) = config (self s)
  /\ ykman_installed w (snd r) = ykman_installed w s.
Proof.
  simpl. unfold is_available. run_m.
  destruct (negb (yubikey_enabled (config (self s)))); simpl; [auto|].
  apply check_yubikey_present_frame.
Qed.

(** X11: inside the compatibility layer, on a manager whose key is
    available and that has no [ykman], [verify_pin] answers [True] for every
    PIN (nothing is checked), and [change_pin] raises [YubiKeyError]. *)
Theorem pin_operations_without_ykman (s : State)
    (pin old_pin new_pin : string) :
  fst (is_available w s) = Ok true ->
  ykman_installed w s = false ->
  compatibility_layer w (fs (proc s)) = true ->
  fst (verify_pin w pin s) = Ok true
  /\ fst (change_pin w old_pin new_pin s)
     = Raise (YubiKeyError change_pin_wsl_msg).
Proof.
  intros Hav Hno Hwsl.
  destruct (is_available_frame s) as (Hfs1 & _ & Hyk1).
  unfold verify_pin, change_pin. run_m.
  destruct (is_available w s) as [[b|e] s1]; simpl in *; [|discriminate].
  injection Hav as ->. simpl.
  destruct (check_ykman_installed_run s1) as (Hr & Hfs2 & _).
  destruct (_check_ykman_installed w s1) as [r2 s2]; simpl in *.
  rewrite Hr, Hyk1, Hno. simpl.
  rewrite lift_eq, is_wsl2_run. simpl. rewrite Hfs2, Hfs1, Hwsl. auto.
Qed.

End ManagerBehaviour.

(** X11 at work. *)
Lemma pin_operations_without_ykman_witness :
  fst (YubikeyOps.verify_pin Scenario.wsl_with_exe "000000"
         YubikeyCases.wsl_manager) = Ok true
  /\ fst (YubikeyOps.change_pin Scenario.wsl_with_exe "123456" "654321"
            YubikeyCases.wsl_manager)
     = Raise (YubiKeyError YubikeyOps.change_pin_wsl_msg).
Proof.
  exact (pin_operations_without_ykman Scenario.wsl_with_exe
           YubikeyCases.wsl_manager "000000" "123456" "654321"
           eq_refl eq_refl eq_refl).
Defined.

(** X10 at work: on a native machine with a key the device is reported
    present and the plugin is not started. *)
Lemma check_yubikey_present_native_witness :
  let r := Yubikey._check_yubikey_present YubikeyCases.native_with_key
             Scenario.new_manager in
  Yubikey.plugin_runs (since (Yubikey.proc Scenario.new_manager)
                         (Yubikey.proc (snd r))) = []
  /\ fst r = Ok true.
Proof.
  destruct (check_yubikey_present_native YubikeyCases.native_with_key
              Scenario.new_manager eq_refl eq_refl) as [Hruns Hiff].
  split; [exact Hruns|]. apply Hiff. split; [reflexivity|].
  exists "Device type: YubiKey 5 NFC", "". reflexivity.
Defined.

(** X8 at work. *)
Lemma disabled_gate_witness :
  Yubikey.is_available Scenario.wsl_with_exe YubikeyCases.disabled_manager
  = (Ok false, YubikeyCases.disabled_manager).
Proof.
  exact (proj1 (disabled_gate Scenario.wsl_with_exe
                  YubikeyCases.disabled_manager "123456" "123456" "654321"
                  None eq_refl)).
Defined.

(** ** Wrapping a key for the YubiKey *)

Section Wrap.

Import Yubikey YubikeyOps.
#[local] Open Scope Z_scope.

Variable w : World.

(** Stripping keeps a prefix that has no white space in it. *)
Lemma rstrip_keeps_prefix (p s : string) :
  forallb (fun c => negb (isspace c)) (list_ascii_of_string p) = true ->
  String.prefix p s = true ->
  String.prefix p (rstrip s) = true.
Proof.
  revert s. induction p as [|c p IH]; intros s Hp Hs;
    [destruct (rstrip s); reflexivity|].
  destruct s as [|c' s]; simpl in Hs; [discriminate|].
  destruct (ascii_dec c c') as [<-|]; [|discriminate].
  simpl in Hp. apply andb_true_iff in Hp as [Hc Hp].
  apply negb_true_iff in Hc. simpl. rewrite Hc. simpl.
  destruct (ascii_dec c c); [|contradiction]. apply IH; assumption.
Qed.

Lemma strip_keeps_prefix (p s : string) :
  forallb (fun c => negb (isspace c)) (list_ascii_of_string p) = true ->
  String.prefix p s = true ->
  String.prefix p (strip s) = true.
Proof.
  intros Hp Hs. unfold strip. apply rstrip_keeps_prefix; [exact Hp|].
  destruct p as [|c p]; [destruct (lstrip s); reflexivity|].
  destruct s as [|c' s]; simpl in Hs; [discriminate|].
  destruct (ascii_dec c c') as [<-|]; [|discriminate].
  simpl in Hp. apply andb_true_iff in Hp as [Hc _].
  apply negb_true_iff in Hc. simpl. rewrite Hc. simpl.
  destruct (ascii_dec c c); [exact Hs|contradiction].
Qed.

(** A recipient that was parsed from a listing begins with the tag. *)
Lemma parse_recipient_tagged (cmd out v : string) :
  parse_recipient cmd out = Ok v -> startswith v "age1yubikey1" = true.
Proof.
  unfold parse_recipient.
  destruct (List.find _ _) as [line|] eqn:Hfind; [|discriminate].
  intros [= <-]. apply List.find_some in Hfind as [_ Htag].
  apply strip_keeps_prefix; [reflexivity|exact Htag].
Qed.

(** What a lookup returns was parsed from the output of some command. *)
Lemma lookup_loop_result (what : string) (args : list string)
    (parse : string -> string -> result string) (commands : list string) :
  forall (last_error : option exn) (p : Proc) (v : string),
    fst (lookup_loop w what args parse commands last_error p) = Ok v ->
    exists cmd out, parse cmd out = Ok v.
Proof.
  induction commands as [|cmd rest IH]; intros last_error p v; simpl.
  - unfold after_loop. destruct last_error as [e|]; run_m.
    + rewrite is_wsl2_run. simpl.
      destruct (compatibility_layer w (fs p)); simpl; discriminate.
    + discriminate.
  - run_m. rewrite subprocess_run_eq.
    assert (forall e q,
              fst (match e with
                   | FileNotFoundError _ =>
                       lookup_loop w what args parse rest last_error
                   | CalledProcessError _ _ err =>
                       fun s0 =>
                         let (r, s') := is_wsl2 w s0 in
                         match r with
                         | Ok a =>
                             (if a
                              then lookup_loop w what args parse rest (Some e)
                              else fun s1 =>
                                (Raise (YubiKeyError
                                    ("Failed to get " ++ what ++ " with "
                                     ++ cmd ++ ": " ++ err)), s1)) s'
                         | Raise e0 => (Raise e0, s')
                         end
                   | _ => fun s0 => (Raise e, s0)
                   end q) = Ok v ->
              exists cmd0 out, parse cmd0 out = Ok v) as Hhandler.
    { intros e q. destruct e; simpl; try discriminate.
      - apply IH.
      - rewrite is_wsl2_run. simpl.
        destruct (compatibility_layer w (fs q)); simpl;
          [apply IH|discriminate]. }
    destruct (exec w (fs p) (cmd :: args) "") as [|rc out err]; simpl.
    + apply IH.
    + destruct (negb (rc =? 0)); simpl.
      * apply (Hhandler (CalledProcessError rc out err)).
      * destruct (parse cmd out) as [v0|e] eqn:Hparse; simpl.
        -- intros [= <-]. eauto.
        -- apply Hhandler.
Qed.

(** The recipient lookup returns nothing but a tagged recipient. *)
Lemma get_yubikey_recipient_tagged (s : State) (v : string) :
  fst (_get_yubikey_recipient w s) = Ok v ->
  startswith v "age1yubikey1" = true.
Proof.
  unfold _get_yubikey_recipient. run_m. rewrite lift_eq, is_wsl2_run. simpl.
  rewrite lift_eq. simpl. intros Hv.
  apply lookup_loop_result in Hv as (cmd & out & Hparse).
  exact (parse_recipient_tagged cmd out v Hparse).
Qed.

Lemma get_yubikey_recipient_grows (P : effect -> Prop) (s : State) :
  (forall f, List.Forall P (wsl_effects w f)) ->
  (forall cmd slot, P (Spawn [cmd; "--list"; "--slot"; slot])) ->
  grows P (proc s) (proc (snd (_get_yubikey_recipient w s))).
Proof.
  intros Hwsl Hcmd.
  unfold _get_yubikey_recipient. run_m. rewrite lift_eq, is_wsl2_run. simpl.
  rewrite lift_eq. simpl.
  eapply grows_trans; [apply (grows_effects P (proc s)), Hwsl|].
  apply lookup_loop_grows; [exact Hwsl|]. intros cmd. apply Hcmd.
Qed.

Lemma wsl_effects_encrypts (f : FS) :
  List.Forall encrypts_to_yubikey (wsl_effects w f).
Proof.
  unfold wsl_effects.
  destruct (signal_version f), (signal_release w f);
    repeat (apply List.Forall_cons; [intros ? ? ?; discriminate|]);
    apply List.Forall_nil.
Qed.

Lemma probe_effects_encrypts (f : FS) (commands : list string) :
  List.Forall encrypts_to_yubikey (probe_effects w f commands).
Proof.
  induction commands as [|cmd rest IH]; simpl.
  - apply List.Forall_nil.
  - apply List.Forall_cons; [intros ? ? ?; discriminate|].
    destruct (probe_ok w f cmd); [apply List.Forall_nil|exact IH].
Qed.

(** X12: [encrypt_age_key] hands the private key to [age] only with a
    recipient that begins with [age1yubikey1]: every run of [age -r] that
    the call starts has such a recipient, and what the call returns is the
    standard output of such a run that exited with status 0. *)
Theorem encrypt_age_key_recipient (age_private_key : string) (s : State) :
  let r := encrypt_age_key w age_private_key s in
  List.Forall encrypts_to_yubikey (since (proc s) (proc (snd r)))
  /\ forall ciphertext,
       fst r = Ok ciphertext ->
       exists recipient err,
         startswith recipient "age1yubikey1" = true
         /\ exec w (fs (proc s)) ["age"; "-r"; recipient] age_private_key
            = Exited 0 ciphertext err.
Proof.
  simpl. unfold encrypt_age_key, bind, raise.
  assert (forall q, grows encrypts_to_yubikey (proc s) q ->
                    List.Forall encrypts_to_yubikey (since (proc s) q))
    as Hsince.
  { intros q [_ (t & Ht & HP)]. unfold since. rewrite Ht, drop_app_length.
    exact HP. }
  assert (grows encrypts_to_yubikey (proc s)
            (proc (snd (_check_age_plugin_installed w s)))) as G1.
  { unfold _check_age_plugin_installed. rewrite lift_eq, version_probe_run.
    cbn [fst snd proc]. apply grows_effects, probe_effects_encrypts. }
  destruct (_check_age_plugin_installed w s) as [[installed|e] s1];
    cbn [fst snd] in *; [|split; [apply Hsince, G1|intros c Hc; simpl in Hc; discriminate Hc]].
  destruct installed; cbn [negb];
    [|split; [apply Hsince, G1|intros c Hc; simpl in Hc; discriminate Hc]].
  pose proof (get_yubikey_recipient_grows encrypts_to_yubikey s1
                wsl_effects_encrypts
                (fun cmd slot =>
                   ltac:(unfold encrypts_to_yubikey; intros r rest H;
                         discriminate H))) as G2.
  pose proof (get_yubikey_recipient_tagged s1) as Htag.
  destruct (_get_yubikey_recipient w s1) as [[recipient|e] s2];
    cbn [fst snd] in *;
    pose proof (grows_trans _ _ _ _ G1 G2) as G;
    [|split; [apply Hsince, G|intros c Hc; simpl in Hc; discriminate Hc]].
  specialize (Htag recipient eq_refl).
  destruct G as [Hfs (t & Ht & HP)].
  unfold decode. run_m. rewrite lift_eq, subprocess_run_eq. simpl.
  assert (List.Forall encrypts_to_yubikey
            (since (proc s)
               (log (Spawn ["age"; "-r"; recipient]) (proc s2)))) as Hall.
  { unfold since, log. simpl. rewrite Ht, <- app_assoc, drop_app_length.
    apply List.Forall_app. split; [exact HP|].
    apply List.Forall_cons; [|apply List.Forall_nil].
    intros r rest [= <- <-]. exact Htag. }
  rewrite Hfs.
  destruct (exec w (fs (proc s)) ["age"; "-r"; recipient] age_private_key)
    as [|rc out err] eqn:Hexec; simpl.
  - split; [exact Hall|intros c Hc; discriminate Hc].
  - destruct (Z.eqb_spec rc 0) as [->|Hrc]; simpl.
    + split; [exact Hall|]. intros c [= <-]. exists recipient, err. auto.
    + destruct (utf8_ok err); simpl;
        (split; [exact Hall|intros c Hc; discriminate Hc]).
Qed.

End Wrap.

(** X12 at work: on a native machine the key goes to the recipient that
    the plugin lists. *)
Example encrypt_age_key_runs :
  let r := YubikeyOps.encrypt_age_key YubikeyCases.native_encrypting
             "AGE-SECRET-KEY-1QQQQ" Scenario.new_manager in
  fst r = Ok "ciphertext"
  /\ spawned (since (Yubikey.proc Scenario.new_manager)
                (Yubikey.proc (snd r)))
     = [ [Yubikey.plugin; "--version"]; ["uname"; "-r"];
         [Yubikey.plugin; "--list"; "--slot"; "1"];
         ["age"; "-r"; "age1yubikey1qwerty"] ].
Proof. vm_compute. auto. Qed.

(** ** The test double *)

Section MockManager.

Import Mock.
#[local] Open Scope Z_scope.

(** Text made of ASCII characters is well-formed UTF-8. *)
Lemma utf8_ok_fuel_ascii (s : string) :
  forallb (in_range 0 127) (list_ascii_of_string s) = true ->
  utf8_ok_fuel (String.length s) s = true.
Proof.
  induction s as [|c s IH]; simpl; [reflexivity|].
  intros H. apply andb_true_iff in H as [Hc Hs]. rewrite Hc. exact (IH Hs).
Qed.

Lemma forallb_append (f : ascii -> bool) (a b : string) :
  forallb f (list_ascii_of_string (a ++ b))
  = forallb f (list_ascii_of_string a) && forallb f (list_ascii_of_string b).
Proof.
  induction a as [|c a IH]; simpl; [reflexivity|].
  rewrite IH, andb_assoc. reflexivity.
Qed.

Lemma digits_ascii (d : Decimal.uint) :
  forallb (in_range 0 127)
    (list_ascii_of_string (NilEmpty.string_of_uint d)) = true.
Proof. induction d; simpl; auto. Qed.

Lemma str_of_int_ascii (n : Z) :
  forallb (in_range 0 127) (list_ascii_of_string (str_of_int n)) = true.
Proof.
  unfold str_of_int, NilZero.string_of_int, NilZero.string_of_uint.
  destruct (Z.to_int n) as [d|d]; destruct d; simpl;
    try reflexivity; apply digits_ascii.
Qed.

(** Decimal printing tells numbers apart. *)
Lemma str_of_int_inj (a b : Z) : str_of_int a = str_of_int b -> a = b.
Proof.
  unfold str_of_int. intros H.
  assert (forall z, Z.to_int z <> Decimal.Pos Decimal.Nil
                    /\ Z.to_int z <> Decimal.Neg Decimal.Nil) as Hnn.
  { intros [|p|p]; simpl; split; try discriminate;
      intros [= Hp]; exact (DecimalPos.Unsigned.to_uint_nonnil p Hp). }
  apply (f_equal NilZero.int_of_string) in H.
  rewrite !NilZero.isi in H by apply Hnn.
  injection H as H. apply (f_equal Z.of_int) in H.
  rewrite !DecimalZ.of_to in H. exact H.
Qed.

Lemma append_inj (p a b : string) : p ++ a = p ++ b -> a = b.
Proof. induction p as [|c p IH]; simpl; [auto|]. intros [= H]. auto. Qed.

(** Decrypting the ciphertext that carries identifier [k]. *)
Lemma decrypt_mock (m : MockYubiKeyManager) (k : string) :
  forallb (in_range 0 127) (list_ascii_of_string k) = true ->
  decrypt_age_key ("MOCK:" ++ k) m
  = (match mock_encrypted_keys m !! k with
     | Some key => Ok key
     | None => Raise (YubiKeyError "Mock key not found")
     end, m).
Proof.
  intros Hk. unfold decrypt_age_key, decode, utf8_ok. run_m.
  rewrite utf8_ok_fuel_ascii by exact Hk. simpl.
  unfold from5. simpl. rewrite Nat.sub_0_r.
  assert (forall x, substring 0 (String.length x) x = x) as Hsub
    by (induction x as [|c x IH]; simpl; [reflexivity|]; rewrite IH;
        reflexivity).
  rewrite Hsub. change (EmptyString ++ k) with k.
  assert (startswith k EmptyString = true) as ->
    by (destruct k; reflexivity).
  destruct (mock_encrypted_keys m !! k); reflexivity.
Qed.

Lemma next_key_id_ascii (m : MockYubiKeyManager) :
  forallb (in_range 0 127) (list_ascii_of_string (next_key_id m)) = true.
Proof.
  unfold next_key_id. rewrite forallb_append, str_of_int_ascii. reflexivity.
Qed.

(** X15: what the test double "encrypts" it "decrypts": after
    [encrypt_age_key key] has returned [c], [decrypt_age_key c] returns
    [key]. *)
Theorem mock_round_trip (m : MockYubiKeyManager) (key : string) :
  let sealed := encrypt_age_key key m in
  exists c, fst sealed = Ok c
            /\ decrypt_age_key c (snd sealed) = (Ok key, snd sealed).
Proof.
  simpl. unfold encrypt_age_key. run_m. eexists. split; [reflexivity|].
  rewrite decrypt_mock by apply next_key_id_ascii.
  simpl. rewrite lookup_insert_eq. reflexivity.
Qed.

(** The next identifier is new in a dictionary that is well numbered. *)
Lemma next_key_id_fresh (m : MockYubiKeyManager) :
  well_numbered m -> mock_encrypted_keys m !! next_key_id m = None.
Proof.
  intros Hwn. destruct (mock_encrypted_keys m !! next_key_id m) eqn:Hk;
    [|reflexivity].
  destruct (proj1 (Hwn (next_key_id m))) as (n & Hn & Heq); [eauto|].
  unfold next_key_id in Heq. apply append_inj, str_of_int_inj in Heq. lia.
Qed.

(** X16: the identifiers that the test double hands out never collide.
    Starting from a dictionary that holds exactly the identifiers handed out
    so far (as the empty dictionary of a new manager does), an
    [encrypt_age_key] keeps it so, and every ciphertext that could be
    decrypted before can still be decrypted, to the same key. *)
Theorem mock_keeps_earlier_keys (m : MockYubiKeyManager) (key : string) :
  well_numbered m ->
  let m' := snd (encrypt_age_key key m) in
  well_numbered m'
  /\ forall c k, fst (decrypt_age_key c m) = Ok k ->
                 fst (decrypt_age_key c m') = Ok k.
Proof.
  intros Hwn. pose proof (next_key_id_fresh m Hwn) as Hfresh. simpl.
  unfold encrypt_age_key. run_m. split.
  - intros k. simpl. rewrite map_size_insert_None by exact Hfresh.
    destruct (decide (k = next_key_id m)) as [->|Hne].
    + rewrite lookup_insert_eq. split; [|eauto].
      intros _. exists (size (mock_encrypted_keys m)). split; [lia|].
      reflexivity.
    + rewrite lookup_insert_ne by congruence. rewrite (Hwn k). split.
      * intros (n & Hn & ->). exists n. split; [lia|reflexivity].
      * intros (n & Hn & ->).
        assert (n <> size (mock_encrypted_keys m)) as Hn'
          by (intros ->; apply Hne; reflexivity).
        exists n. split; [lia|reflexivity].
  - intros c k. unfold decrypt_age_key, decode. run_m.
    destruct (utf8_ok c); simpl; [|discriminate].
    destruct (startswith c "MOCK:"); simpl; [|discriminate].
    destruct (mock_encrypted_keys m !! from5 c) as [k0|] eqn:Hk; simpl;
      [|discriminate].
    intros [= <-].
    rewrite lookup_insert_ne by (intros Heq; congruence).
    rewrite Hk. reflexivity.
Qed.

End MockManager.

(** X16 at work: a new test double. *)
Lemma mock_keeps_earlier_keys_witness :
  Mock.well_numbered
    (snd (Mock.encrypt_age_key "AGE-SECRET-KEY-1QQQQ"
            (Mock.mkMock (Yubikey.mkVaultConfig true "1") true ∅))).
Proof.
  apply (mock_keeps_earlier_keys
           (Mock.mkMock (Yubikey.mkVaultConfig true "1") true ∅)
           "AGE-SECRET-KEY-1QQQQ").
  intros k. simpl. rewrite lookup_empty, map_size_empty. split.
  - intros [x [=]].
  - intros (n & Hn & _). lia.
Defined.

(** ** The diagnostic report and the failure of the detection *)

Section Report.

Import Yubikey YubikeyOps Diagnostics.
#[local] Open Scope Z_scope.

Variable w : World.



End Report.

(** The two at work on a machine whose [ykman] has been removed after the
    manager had found it: the detection raises, the report does not. *)
Example detection_raises_report_does_not :
  let s := Yubikey.mkState
             (Yubikey.mkYubiKeyManager (Yubikey.mkVaultConfig true "1")
                (Some true) None)
             (mkProc ∅ []) in
  fst (Yubikey.is_available (Scenario.machine []) s)
  = Raise (FileNotFoundError "No such file or directory: ykman")
  /\ exists d, fst (Diagnostics.get_diagnostics (Scenario.machine []) s) = Ok d
               /\ d !! "yubikey_detected" = Some (Diagnostics.DBool false).
Proof.
  split; [reflexivity|]. eexists. split; [reflexivity|]. vm_compute.
  reflexivity.
Qed.

(** * Properties of the key files and of the [age] wrappers *)

Section VaultFiles.

Import Crypto CryptoOps.
#[local] Open Scope Z_scope.



Lemma rstrip_app_nl (a : string) : rstrip (a ++ nl) = rstrip a.
Proof.
  induction a as [|c a IH]; [reflexivity|].
  change (String c a ++ nl)%string with (String c (a ++ nl)).
  cbn [rstrip]. rewrite IH. reflexivity.
Qed.

Lemma rstrip_idem (a : string) : rstrip (rstrip a) = rstrip a.
Proof.
  induction a as [|c a IH]; [reflexivity|]. cbn [rstrip].
  destruct (isspace c && String.eqb (rstrip a) EmptyString) eqn:E;
    [reflexivity|].
  cbn [rstrip]. rewrite IH, E. reflexivity.
Qed.

Lemma lstrip_head (x : string) :
  lstrip x = EmptyString
  \/ exists c r, lstrip x = String c r /\ isspace c = false.
Proof.
  induction x as [|c x IH]; [auto|]. cbn [lstrip].
  destruct (isspace c) eqn:E; [exact IH|]. right. eauto.
Qed.

(** A stripped, non-empty text survives being written as a line and read
    back with [strip]. *)
Lemma strip_line (x : string) :
  strip x <> EmptyString -> strip (strip x ++ nl) = strip x.
Proof.
  unfold strip. destruct (lstrip_head x) as [->|(c & r & -> & Hc)].
  - intros H. exfalso. apply H. reflexivity.
  - intros _.
    assert (rstrip (String c r) = String c (rstrip r)) as ->
      by (cbn [rstrip]; rewrite Hc; reflexivity).
    change (String c (rstrip r) ++ nl)%string
      with (String c (rstrip r ++ nl)).
    cbn [lstrip]. rewrite Hc. cbn [rstrip]. rewrite Hc. cbn [andb].
    rewrite rstrip_app_nl, rstrip_idem. reflexivity.
Qed.

Lemma public_key_of_stripped (text k : string) :
  public_key_of text = Some k -> exists x, k = strip x.
Proof.
  unfold public_key_of.
  destruct (List.find _ _) as [line|]; [|discriminate].
  intros [= <-]. eauto.
Qed.

(** X17: [generate_key] and [get_public_key] agree.  After [generate_key]
    has returned the public key [k], the public-key file holds [k] on a line
    of its own, and [get_public_key] returns [k]; it fails only where the
    owner may not read that file (it existed before without that
    permission, or the file-creation mask takes it away), with
    [PermissionError]. *)
Theorem get_public_key_after_generate_key (w : World) (self : VaultCrypto)
    (p : Proc) (k : string) :
  fst (generate_key w self p) = Ok (Some k) ->
  k <> EmptyString ->
  let p' := snd (generate_key w self p) in
  exists f, fs p' !! key_pub_file self = Some f
            /\ content f = (k ++ nl)%string
            /\ fst (get_public_key self p')
               = if readable f then Ok k
                 else Raise (PermissionError
                               ("Permission denied: " ++ key_pub_file self)).
Proof.
  intros Hret Hk. simpl. revert Hret.
  pose proof (key_pub_file_ne self) as Hne.
  unfold generate_key, _check_age_installed, run_age_keygen, os_chmod,
    write_text, get_public_key, read_text.
  run_m. rewrite !(subprocess_run_eq w). simpl.
  destruct (exec w (fs p) ["age"; "--version"] "") as [|rc out err]; simpl;
    [discriminate|].
  destruct (negb (rc =? 0)); simpl; [discriminate|].
  destruct (exists_ (fs p) (key_file self)); simpl; [discriminate|].
  rewrite !(subprocess_run_eq w). simpl.
  destruct (exec w (fs p) ["age-keygen"; "-o"; key_file self] "")
    as [|rc2 out2 err2]; simpl; [discriminate|].
  destruct (negb (rc2 =? 0)); simpl; [discriminate|].
  destruct (public_key_of err2) as [k0|] eqn:Hpk; simpl.
  2:{ rewrite lookup_insert_eq. simpl. discriminate. }
  destruct (public_key_of_stripped _ _ Hpk) as [x ->].
  destruct (negb (String.eqb (strip x) EmptyString)) eqn:Hnz; simpl.
  2:{ rewrite lookup_insert_eq. simpl. intros [= E].
      apply negb_false_iff, String.eqb_eq in Hnz. congruence. }
  assert (key_file self <> key_pub_file self) as Hne'
    by (intros E; apply Hne; symmetry; exact E).
  rewrite (lookup_insert_ne _ _ _ _ Hne').
  destruct (fs p !! key_pub_file self) as [f0|]; simpl;
    [destruct (writable f0); simpl; [|discriminate]|];
    (rewrite lookup_insert_ne by exact Hne; rewrite lookup_insert_eq; simpl;
     intros [= <-];
     rewrite lookup_insert_ne by exact Hne'; rewrite lookup_insert_eq;
     eexists; split; [reflexivity|]; split; [reflexivity|];
     unfold exists_;
     rewrite bool_decide_eq_true_2
       by (rewrite lookup_insert_ne by exact Hne';
           rewrite lookup_insert_eq; eauto);
     simpl; rewrite lookup_insert_ne by exact Hne';
     rewrite lookup_insert_eq; simpl;
     match goal with |- context [readable ?f] => destruct (readable f) end;
     simpl; [|reflexivity];
     rewrite strip_line by exact Hk; reflexivity).
Qed.











Variable t : Tools.

Lemma run_tool_eq (check : bool) (argv : list string) (p : Proc) :
  run_tool t check argv p =
  match exec (host t) (fs p) argv "" with
  | NotFound =>
      (Raise (FileNotFoundError
                ("No such file or directory: " ++ hd EmptyString argv)),
       log (Spawn argv) p)
  | Exited rc out err =>
      (if check && negb (rc =? 0) then Raise (CalledProcessError rc out err)
       else Ok (mkCompleted rc out err),
       set_fs (after_run t (fs p) argv) (log (Spawn argv) p))
  end.
Proof.
  unfold run_tool. run_m.
  destruct (exec (host t) (fs p) argv "") as [|rc out err]; simpl;
    [reflexivity|].
  destruct (check && negb (rc =? 0)); reflexivity.
Qed.

Lemma check_age_installed_eq (p : Proc) :
  _check_age_installed (host t) p =
  (if age_installed t (fs p) then Ok tt
   else Raise (VaultCryptoError age_missing_msg),
   log (Spawn ["age"; "--version"]) p).
Proof.
  unfold _check_age_installed, age_installed. run_m.
  rewrite subprocess_run_eq. simpl.
  destruct (exec (host t) (fs p) ["age"; "--version"] "") as [|rc out err];
    simpl; [reflexivity|].
  destruct rc; reflexivity.
Qed.

Ltac run_checked :=
  unfold bind, ret, raise, get, modify, try_except; cbv beta;
  change (machine (sound t)) with (reliable (host t));
  rewrite ?check_age_installed_eq; cbv beta.



(** X20: when [decrypt_to_memory] returns.  It returns [text] exactly when
    [age] is installed, the encrypted file exists, [age -d -i key file]
    exits with status 0 and [text], its standard output, is well-formed
    UTF-8.  Unlike [decrypt], it does not look for the private key
    itself. *)
Theorem decrypt_to_memory_returns (self : VaultCrypto) (input_file : string)
    (p : Proc) (text : string) :
  fst (decrypt_to_memory t self input_file p) = Ok text <->
  age_installed t (fs p) = true
  /\ exists_ (fs p) input_file = true
  /\ utf8_ok text = true
  /\ exists err,
       exec (host t) (fs p) ["age"; "-d"; "-i"; key_file self; input_file] ""
       = Exited 0 text err.
Proof.
  unfold decrypt_to_memory, report_failure, decode. run_checked.
  destruct (age_installed t (fs p)); simpl;
    [|split; [discriminate|intros [[=] _]]].
  run_m.
  destruct (exists_ (fs p) input_file); simpl;
    [|split; [discriminate|intros (_ & [=] & _)]].
  rewrite run_tool_eq. simpl.
  destruct (exec (host t) (fs p)
              ["age"; "-d"; "-i"; key_file self; input_file] "")
    as [|rc out err]; simpl.
  { split; [discriminate|intros (_ & _ & _ & e & [=])]. }
  destruct (Z.eqb_spec rc 0) as [->|Hrc]; simpl.
  - destruct (utf8_ok out) eqn:Hu; simpl.
    + split.
      * intros [= <-]. eauto.
      * intros (_ & _ & _ & e & [= <- _]). reflexivity.
    + split; [discriminate|].
      intros (_ & _ & Hu' & e & [= -> _]). congruence.
  - destruct (utf8_ok err); simpl;
      (split; [discriminate|]; intros (_ & _ & _ & e & [= E _]);
       congruence).
Qed.


(** X22: [encrypt] for a given recipient.  With a non-empty [recipient]
    the key files of the vault are not consulted: all that the call starts
    is the installation check and one [age -r recipient], and what it
    returns is the output path, [input_file] with [.age] appended unless one
    was given, after that run has exited with status 0. *)
Theorem encrypt_for_recipient (self : VaultCrypto) (input_file : string)
    (output_file : option string) (recipient : string) (p : Proc) :
  recipient <> EmptyString ->
  let r := encrypt t self input_file output_file (Some recipient) p in
  let output_path := default (input_file ++ ".age")%string output_file in
  let argv := ["age"; "-r"; recipient; "-o"; output_path; input_file] in
  (forall path,
     fst r = Ok path ->
     path = output_path
     /\ exists out err, exec (host t) (fs p) argv "" = Exited 0 out err)
  /\ (since p (snd r) = [Spawn ["age"; "--version"]]
      \/ since p (snd r) = [Spawn ["age"; "--version"]; Spawn argv]).
Proof.
  intros Hr. simpl. unfold encrypt, report_failure, decode. run_checked.
  assert (since p (log (Spawn ["age"; "--version"]) p)
          = [Spawn ["age"; "--version"]]) as Hlog
    by (unfold log; apply since_app).
  destruct (age_installed t (fs p)); simpl;
    [|split; [discriminate|left; exact Hlog]].
  run_m.
  destruct (exists_ (fs p) input_file); simpl;
    [|split; [discriminate|left; exact Hlog]].
  apply String.eqb_neq in Hr. rewrite Hr. simpl.
  rewrite run_tool_eq. simpl.
  assert (forall f a,
            since p (mkProc f ((trace p ++ [Spawn ["age"; "--version"]])
                                 ++ [Spawn a]))
            = [Spawn ["age"; "--version"]; Spawn a]) as Hlog2.
  { intros f a. rewrite <- app_assoc. apply since_app. }
  destruct output_file as [o|]; simpl;
    match goal with
    | |- context [exec ?w ?f ?a ?i] =>
        destruct (exec w f a i) as [|rc out err]; simpl
    end;
    try (split; [discriminate|right; apply Hlog2]);
    (destruct (Z.eqb_spec rc 0) as [->|Hrc]; simpl;
     [split; [intros path [= <-]; eauto|right; apply Hlog2]
     |destruct (utf8_ok err); simpl;
      (split; [discriminate|right; apply Hlog2])]).
Qed.

End VaultFiles.
(** X17 at work: the key that [generate_key] announces is the key that
    [get_public_key] reads back. *)
Lemma get_public_key_after_generate_key_witness :
  fst (CryptoOps.get_public_key Scenario.vault
         (snd (Crypto.generate_key CryptoCases.announcing Scenario.vault
                 Scenario.idle)))
  = Ok "age1zzz".
Proof.
  destruct (get_public_key_after_generate_key CryptoCases.announcing
              Scenario.vault Scenario.idle "age1zzz" eq_refl)
    as (f & Hf & _ & Hget).
  - discriminate.
  - vm_compute in Hf. injection Hf as <-. exact Hget.
Defined.




(** X22 at work: the secrets are encrypted to the friend's key, next to
    the input. *)
Lemma encrypt_for_recipient_witness :
  fst (CryptoOps.encrypt CryptoCases.encrypting Scenario.vault
         "/home/u/secrets.json" None (Some "age1friend") CryptoCases.plain)
  = Ok "/home/u/secrets.json.age".
Proof.
  destruct (encrypt_for_recipient CryptoCases.encrypting Scenario.vault
              "/home/u/secrets.json" None "age1friend" CryptoCases.plain)
    as [_ Hlog].
  - discriminate.
  - reflexivity.
Defined.

(** * Properties of the slot operations *)

Section SlotOperations.

Import Yubikey YubikeyOps.
#[local] Open Scope Z_scope.

Variable w : World.

(** X23: [export_public_key] returns only a certificate that [ykman] has
    just exported.  If it returns [pem], then [ykman] is installed and
    [ykman piv export-certificate slot -] has exited with status 0, [pem]
    being its stripped output, for the slot given or, when none or the
    empty string is given, for the configured one.  In every other case it
    raises. *)
Theorem export_public_key_returns (slot : option string) (s : State)
    (pem : string) :
  fst (export_public_key w slot s) = Ok pem ->
  let chosen := match slot with
                | Some x => if String.eqb x EmptyString
                            then yubikey_slot (config (self s)) else x
                | None => yubikey_slot (config (self s))
                end in
  ykman_installed w s = true
  /\ exists out err,
       exec w (fs (proc s)) ["ykman"; "piv"; "export-certificate"; chosen; "-"]
         "" = Exited 0 out err
       /\ pem = strip out.
Proof.
  intros Hret. simpl.
  destruct (is_available_frame w s) as (Hfs1 & Hcfg1 & Hyk1).
  revert Hret. unfold export_public_key. run_m.
  destruct (is_available w s) as [[b|e] s1]; simpl in *; [|discriminate].
  destruct b; simpl; [|discriminate].
  destruct (check_ykman_installed_run w s1) as (Hr & Hfs2 & _).
  destruct (_check_ykman_installed w s1) as [r2 s2]; simpl in *.
  rewrite Hr, Hyk1. clear Hr.
  destruct (ykman_installed w s); simpl.
  2:{ rewrite lift_eq, is_wsl2_run. simpl.
      destruct (compatibility_layer w (fs (proc s2))); discriminate. }
  rewrite lift_eq, subprocess_run_eq. simpl. rewrite Hfs2, Hfs1, Hcfg1.
  assert (default (yubikey_slot (config (self s)))
            (if truthy slot then slot else None)
          = match slot with
            | Some x => if String.eqb x EmptyString
                        then yubikey_slot (config (self s)) else x
            | None => yubikey_slot (config (self s))
            end) as ->.
  { destruct slot as [x|]; simpl; [|reflexivity].
    destruct (String.eqb x EmptyString); reflexivity. }
  match goal with
  | |- context [exec ?w ?f ?a ?i] =>
      destruct (exec w f a i) as [|rc out err]; simpl
  end; [discriminate|].
  destruct (Z.eqb_spec rc 0) as [->|Hrc]; simpl.
  - intros [= <-]. eauto.
  - rewrite lift_eq, is_wsl2_run. simpl.
    match goal with
    | |- context [compatibility_layer ?w ?f] =>
        destruct (compatibility_layer w f); discriminate
    end.
Qed.

(** X24: what [get_slot_info] can return.  A dictionary that it returns is
    either the one parsed from the output of a [ykman piv info slot] that
    exited with status 0, or, inside the compatibility layer only, the
    two-entry dictionary that names the configured slot and carries a
    note. *)
Theorem get_slot_info_returns (s : State) (info : gmap string string) :
  fst (get_slot_info w s) = Ok info ->
  let slot := yubikey_slot (config (self s)) in
  (ykman_installed w s = true
   /\ exists out err,
        exec w (fs (proc s)) ["ykman"; "piv"; "info"; "slot"; slot] ""
        = Exited 0 out err
        /\ info = slot_info_of out)
  \/ (compatibility_layer w (fs (proc s)) = true
      /\ dom info = {[ "slot"; "note" ]}
      /\ info !! "slot" = Some slot).
Proof.
  intros Hret. simpl.
  destruct (is_available_frame w s) as (Hfs1 & Hcfg1 & Hyk1).
  revert Hret. unfold get_slot_info. run_m.
  destruct (is_available w s) as [[b|e] s1]; simpl in *; [|discriminate].
  destruct b; simpl; [|discriminate].
  destruct (check_ykman_installed_run w s1) as (Hr & Hfs2 & _).
  destruct (_check_ykman_installed w s1) as [r2 s2]; simpl in *.
  rewrite Hr, Hyk1. clear Hr. rewrite Hcfg1.
  destruct (ykman_installed w s); simpl.
  2:{ rewrite lift_eq, is_wsl2_run. simpl. rewrite Hfs2, Hfs1.
      destruct (compatibility_layer w (fs (proc s))); simpl; [|discriminate].
      intros [= <-]. right. split; [reflexivity|].
      split; [|reflexivity]. rewrite dom_insert_L, dom_singleton_L.
      set_solver. }
  rewrite lift_eq, subprocess_run_eq. simpl. rewrite Hfs2, Hfs1.
  match goal with
  | |- context [exec ?w ?f ?a ?i] =>
      destruct (exec w f a i) as [|rc out err]; simpl
  end; [discriminate|].
  destruct (Z.eqb_spec rc 0) as [->|Hrc]; simpl.
  - intros [= <-]. left. eauto.
  - rewrite lift_eq, is_wsl2_run. simpl. rewrite ?Hfs2, ?Hfs1.
    destruct (compatibility_layer w (fs (proc s))); simpl; [|discriminate].
    intros [= <-]. right. split; [reflexivity|].
    split; [|reflexivity]. rewrite dom_insert_L, dom_singleton_L. set_solver.
Qed.

End SlotOperations.

(** X23 at work: the certificate of the configured slot. *)
Lemma export_public_key_returns_witness :
  exists out err,
    exec SlotCases.native_piv ∅
      ["ykman"; "piv"; "export-certificate"; "1"; "-"] ""
    = Exited 0 out err
    /\ "-----BEGIN CERTIFICATE-----" = strip out.
Proof.
  exact (proj2 (export_public_key_returns SlotCases.native_piv None
                  Scenario.new_manager "-----BEGIN CERTIFICATE-----"
                  eq_refl)).
Defined.

(** X24 at work: the dictionary parsed from the output of [ykman]. *)
Lemma get_slot_info_returns_witness :
  fst (YubikeyOps.get_slot_info SlotCases.native_piv Scenario.new_manager)
  = Ok {[ "Algorithm" := "ECCP256" ]}.
Proof.
  destruct (get_slot_info_returns SlotCases.native_piv Scenario.new_manager
              (YubikeyOps.slot_info_of "Algorithm: ECCP256") eq_refl)
    as [_|[[=] _]].
  reflexivity.
Defined.

(** * The vault's own key *)

Section OwnKey.

Import Crypto CryptoOps.
#[local] Open Scope Z_scope.

Variable t : Tools.

(** [get_public_key] depends on the files alone; it starts nothing and
    changes no file. *)
Lemma get_public_key_frame (self : VaultCrypto) (p q : Proc) :
  fs q = fs p ->
  fst (get_public_key self q) = fst (get_public_key self p)
  /\ fs (snd (get_public_key self q)) = fs p
  /\ exists opens,
       trace (snd (get_public_key self q)) = (trace q ++ opens)%list
       /\ spawned opens = [].
Proof.
  intros Hfs. unfold get_public_key, read_text. run_m. rewrite Hfs.
  destruct (exists_ (fs p) (key_pub_file self)); simpl.
  - rewrite Hfs.
    destruct (fs p !! key_pub_file self) as [f|]; simpl;
      [destruct (readable f); simpl|];
      (split; [reflexivity|]; split; [exact Hfs|]; eexists;
       split; reflexivity).
  - destruct (exists_ (fs p) (key_file self)); simpl.
    + rewrite Hfs.
      destruct (fs p !! key_file self) as [f|]; simpl;
        [destruct (readable f); simpl;
         [destruct (List.find _ _); simpl|]|];
        (split; [reflexivity|]; split; [exact Hfs|]; eexists;
         split; reflexivity).
    + split; [reflexivity|]. split; [exact Hfs|]. exists [].
      rewrite app_nil_r. split; reflexivity.
Qed.

(** X26: [encrypt] to the vault's own key.  Without a recipient, or with
    the empty string for one, the key is the one [get_public_key] gives:
    where that call raises, [encrypt] raises the same exception and has
    started nothing but the installation check; where it returns [k], the
    one encryption that is started is [age -r k]. *)
Theorem encrypt_own_key (self : VaultCrypto) (input_file : string)
    (output_file recipient : option string) (p : Proc) :
  truthy recipient = false ->
  age_installed t (fs p) = true ->
  exists_ (fs p) input_file = true ->
  let r := encrypt t self input_file output_file recipient p in
  let output_path := default (input_file ++ ".age")%string output_file in
  match fst (get_public_key self p) with
  | Ok k =>
      spawned (since p (snd r))
      = [ ["age"; "--version"];
          ["age"; "-r"; k; "-o"; output_path; input_file] ]
  | Raise e =>
      fst r = Raise e
      /\ spawned (since p (snd r)) = [ ["age"; "--version"] ]
  end.
Proof.
  intros Hrec Hage Hin. simpl.
  pose proof (get_public_key_frame self p
                (log (Spawn ["age"; "--version"]) p) eq_refl)
    as (Hres & Hfs & opens & Htrace & Hopens).
  assert (encrypt t self input_file output_file recipient
          = encrypt t self input_file output_file None) as ->.
  { unfold encrypt. destruct recipient; [rewrite Hrec|]; reflexivity. }
  unfold encrypt, report_failure, decode.
  unfold bind, ret, raise, get, modify, try_except; cbv beta.
  rewrite (check_age_installed_eq t). cbv beta. rewrite Hage.
  cbn [fs log]. rewrite Hin. cbn [negb].
  destruct (get_public_key self (log (Spawn ["age"; "--version"]) p))
    as [[k|e] p1] eqn:Hget; simpl in Hres, Hfs, Htrace.
  - rewrite <- Hres. rewrite run_tool_eq. rewrite Hfs.
    assert (forall f,
              spawned (since p
                         (mkProc f
                            (trace p1
                             ++ [Spawn ["age"; "-r"; k; "-o";
                                        default (input_file ++ ".age")%string
                                          output_file; input_file]])))
              = [ ["age"; "--version"];
                  ["age"; "-r"; k; "-o";
                   default (input_file ++ ".age")%string output_file;
                   input_file] ]) as Hlog.
    { intros f. rewrite Htrace. unfold log. cbn [trace].
      rewrite <- !app_assoc. rewrite since_app. unfold spawned in *.
      rewrite !omap_app, Hopens. reflexivity. }
    destruct output_file as [o|]; cbn [default] in *;
      match goal with
      | |- context [exec ?w ?f ?a ?i] =>
          destruct (exec w f a i) as [|rc out err]
      end; cbn [fst snd log set_fs fs trace andb];
      try apply Hlog;
      (destruct (negb (rc =? 0)); [destruct (utf8_ok err)|];
       cbn [fst snd log set_fs fs trace]; apply Hlog).
  - rewrite <- Hres. split; [reflexivity|]. cbn [snd].
    unfold since. rewrite Htrace. unfold log. cbn [trace].
    rewrite <- app_assoc, drop_app_length. unfold spawned in *.
    rewrite omap_app, Hopens. reflexivity.
Qed.

End OwnKey.

(** X26 at work: on a vault without key files [encrypt] reports the
    missing key and does not start an encryption. *)
Lemma encrypt_own_key_witness :
  let r := CryptoOps.encrypt CryptoCases.encrypting Scenario.vault
             "/home/u/secrets.json" None (Some "") CryptoCases.plain in
  fst r = Raise (VaultCryptoError
                   "Key file not found: /home/u/.kimi-vault/key.txt")
  /\ spawned (since CryptoCases.plain (snd r)) = [ ["age"; "--version"] ].
Proof.
  exact (encrypt_own_key CryptoCases.encrypting Scenario.vault
           "/home/u/secrets.json" None (Some "") CryptoCases.plain
           eq_refl eq_refl eq_refl).
Defined.
